(** * SpecterScope: a shallow embedding of [specterscope.py]

    The reconnaissance tool is embedded as follows.

    - Python values are an inductive type [pyval]; dictionaries with string
      keys are finite maps ([gmap string _]), lists are lists.
    - Everything outside the repository (the DNS resolver, the WHOIS client,
      the HTTP transport, the wall clock, the file system, the order in which
      the event loop resumes coroutines, the builtin [str]) is an oracle of
      the class [Host]: a function of an abstract world state.
    - Effectful code lives in the monad [IO]: it threads the world, the log of
      I/O events and the time spent waiting for the transport, and it ends in
      a returned value, a raised exception or a hang.
    - [run_recon] is a transition system over the tasks of the event loop
      (waiting for the semaphore, suspended in the HTTP request, done), with
      an executable driver that follows the resumption order of the host. *)

From stdpp Require Import gmap strings list fin_maps pretty relations.

Set Warnings "-register-all".
Set Default Proof Using "Type*".

(** ** Exceptions and results *)

(** The exceptions of the model are instances of Python's [Exception]; the
    interpreter-level [BaseException]s (keyboard interrupt, task
    cancellation) are outside of it. *)
Inductive exn :=
| ValueError (msg : string)
| TimeoutError
| AttributeError (msg : string)
| OSError (msg : string)
| Exception (cls : string).

(** What a library call hands back: a value or an exception. *)
Inductive result (A : Type) :=
| Ok (a : A)
| Err (e : exn).
Arguments Ok {A} a.
Arguments Err {A} e.

(** How a computation of the program ends. *)
Inductive outcome (A : Type) :=
| Returned (a : A)
| Raised (e : exn)
| Hangs.
Arguments Returned {A} a.
Arguments Raised {A} e.
Arguments Hangs {A}.

Fixpoint result_mapM {A B : Type} (f : A → result B) (l : list A) : result (list B) :=
  match l with
  | [] => Ok []
  | x :: l' =>
      match f x with
      | Err e => Err e
      | Ok y =>
          match result_mapM f l' with
          | Err e => Err e
          | Ok ys => Ok (y :: ys)
          end
      end
  end.

(** ** Dates and times *)

Record date := Date { d_year : nat; d_month : nat; d_day : nat }.

(** A naive [datetime.datetime] (no time zone), as [utcnow] returns it. *)
Record datetime := Datetime {
  year : nat; month : nat; day : nat;
  hour : nat; minute : nat; second : nat; microsecond : nat
}.

(** [%0<width>d] *)
Definition zpad (width n : nat) : string :=
  let digits := pretty n in
  String.concat "" (replicate (width - String.length digits) "0") +:+ digits.

Definition date_isoformat (d : date) : string :=
  zpad 4 (d_year d) +:+ "-" +:+ zpad 2 (d_month d) +:+ "-" +:+ zpad 2 (d_day d).

Definition time_part (o : datetime) : string :=
  zpad 2 (hour o) +:+ ":" +:+ zpad 2 (minute o) +:+ ":" +:+ zpad 2 (second o)
  +:+ (if decide (microsecond o = 0) then "" else "." +:+ zpad 6 (microsecond o)).

Definition isoformat (o : datetime) : string :=
  zpad 4 (year o) +:+ "-" +:+ zpad 2 (month o) +:+ "-" +:+ zpad 2 (day o)
  +:+ "T" +:+ time_part o.

(** ** Python values *)

Inductive pyval :=
| PyNone
| PyBool (b : bool)
| PyInt (n : Z)
| PyStr (s : string)
| PyList (l : list pyval)
| PyDict (d : gmap string pyval)
| PyDatetime (o : datetime)
| PyDate (o : date)
| PyObj (name : string).

(** Truth value testing, as [if v] does it. *)
Definition truthy (v : pyval) : bool :=
  match v with
  | PyNone => false
  | PyBool b => b
  | PyInt n => negb (n =? 0)%Z
  | PyStr s => negb (String.eqb s "")
  | PyList l => match l with [] => false | _ => true end
  | PyDict d => match map_to_list d with [] => false | _ => true end
  | PyDatetime _ | PyDate _ | PyObj _ => true
  end.

Definition str_truthy (s : string) : bool := negb (String.eqb s "").


(** The builtin [str]. *)
Class Builtins := { builtin_str : pyval → string }.

(** [str.strip()] on strings of code points below 256: the white space
    there is U+0009..U+000D, U+001C..U+0020, U+0085 and U+00A0. *)
Definition isspace (c : Ascii.ascii) : bool :=
  let n := Ascii.nat_of_ascii c in
  ((9 <=? n) && (n <=? 13)) || ((28 <=? n) && (n <=? 32)) || (n =? 133) || (n =? 160).

Fixpoint lstrip (s : string) : string :=
  match s with
  | EmptyString => EmptyString
  | String c s' => if isspace c then lstrip s' else s
  end.

Definition strip (s : string) : string :=
  String.rev (lstrip (String.rev (lstrip s))).

(** ** DNS answers *)

Inductive rdata :=
| A_rdata (address : string)
| MX_rdata (preference : nat) (exchange : string).

Definition to_text (r : rdata) : string :=
  match r with
  | A_rdata address => address
  | MX_rdata preference exchange => pretty preference +:+ " " +:+ exchange
  end.

(** [r.exchange.to_text()]: only a mail-exchange record has the attribute. *)
Definition exchange_to_text (r : rdata) : result string :=
  match r with
  | MX_rdata _ exchange => Ok exchange
  | A_rdata _ => Err (AttributeError "exchange")
  end.

(** ** The report record *)

Record ReconResult := {
  target : string;
  dns_records : gmap string (list string);
  whois_data : gmap string string;
  http_headers : gmap string string;
  timestamp : datetime
}.

(** ** JSON *)

(** A JSON document; an object is the sequence of its members. *)
Inductive json :=
| JNull
| JBool (b : bool)
| JNumber (n : Z)
| JString (s : string)
| JArray (items : list json)
| JObject (members : list (string * json)).

Section json.
Context {builtins : Builtins}.

Definition json_converter (o : pyval) : pyval :=
  match o with
  | PyDatetime o => PyStr (isoformat o)
  | PyDate o => PyStr (date_isoformat o)
  | _ => PyStr (builtin_str o)
  end.

(** [dataclasses.asdict] on a [ReconResult]. *)
Definition asdict (r : ReconResult) : pyval :=
  PyDict (<["target" := PyStr (target r)]>
         (<["dns_records" := PyDict ((λ l, PyList (PyStr <$> l)) <$> dns_records r)]>
         (<["whois_data" := PyDict (PyStr <$> whois_data r)]>
         (<["http_headers" := PyDict (PyStr <$> http_headers r)]>
         (<["timestamp" := PyDatetime (timestamp r)]> ∅))))).

(** The tree [json.dump(obj, default=default)] writes: the values JSON knows
    are translated, any other object goes through [default] and the result
    is encoded in turn. [None] is the encoder giving up ([TypeError], or a
    chain of [default] calls deeper than [depth]). *)
Fixpoint json_encode (default : pyval → pyval) (depth : nat) (o : pyval) : option json :=
  match depth with
  | 0 => None
  | S depth' =>
      match o with
      | PyNone => Some JNull
      | PyBool b => Some (JBool b)
      | PyInt n => Some (JNumber n)
      | PyStr s => Some (JString s)
      | PyList l => JArray <$> mapM (json_encode default depth') l
      | PyDict d =>
          JObject <$> mapM (λ kv, pair kv.1 <$> json_encode default depth' kv.2)
                           (map_to_list d)
      | PyDatetime _ | PyDate _ | PyObj _ => json_encode default depth' (default o)
      end
  end.

(** What [json.load] builds from a document; of two members with one name
    the later one stays. *)
Fixpoint json_decode (j : json) : pyval :=
  match j with
  | JNull => PyNone
  | JBool b => PyBool b
  | JNumber n => PyInt n
  | JString s => PyStr s
  | JArray items => PyList (json_decode <$> items)
  | JObject members =>
      PyDict (list_to_map (reverse ((λ '(k, v), (k, json_decode v)) <$> members)))
  end.

(** Subscription [o[key]] of a dictionary. *)
Definition getitem (o : pyval) (key : string) : option pyval :=
  match o with
  | PyDict d => d !! key
  | _ => None
  end.

(** [o] is written as a document that reads back as [v]. *)
Definition reads_back (default : pyval → pyval) (depth : nat) (o v : pyval) : Prop :=
  ∃ doc, json_encode default depth o = Some doc ∧ json_decode doc = v.

(** What reading the report back is to give for a record: its five fields
    as they are, the time stamp as its ISO 8601 string. *)
Definition loaded (r : ReconResult) : pyval :=
  PyDict (<["target" := PyStr (target r)]>
         (<["dns_records" := PyDict ((λ l, PyList (PyStr <$> l)) <$> dns_records r)]>
         (<["whois_data" := PyDict (PyStr <$> whois_data r)]>
         (<["http_headers" := PyDict (PyStr <$> http_headers r)]>
         (<["timestamp" := PyStr (isoformat (timestamp r))]> ∅))))).

End json.

(** ** The host: everything the program calls into *)

(** What the network does with one HTTP request: an answer (the response
    headers as [dict(resp.headers)] shows them, or a transport error) after
    some time, or nothing at all. *)
Inductive reply :=
| Reply (latency : N) (r : result (gmap string string))
| Silent.

Inductive event :=
| EvPrint (line : string)
| EvOpenRead (path : string)
| EvOpenWrite (path : string)
| EvDump (path : string) (doc : json)
| EvResolve (qname rdtype : string)
| EvWhois (domain : string)
| EvHttpGet (url : string) (timeout : option N).

Class Host (W : Type) := {
  (** [dns.resolver.resolve(qname, rdtype)] *)
  resolver_resolve : string → string → W → result (list rdata) * W;
  (** [whois.whois(domain)]: the entry, a dictionary *)
  whois_whois : string → W → result (gmap string pyval) * W;
  (** the peer's behaviour for a request to the URL *)
  transport : string → W → reply * W;
  (** [datetime.datetime.utcnow()] *)
  clock : W → datetime * W;
  (** [open(path)] followed by iteration over the lines *)
  read_lines : string → W → result (list string) * W;
  (** [open(path, "w")] *)
  open_write : string → W → result () * W;
  (** which of the [n] coroutines that can continue the event loop resumes *)
  next_ready : nat → W → nat * W
}.

(** ** What the answers of the host contribute to a record *)

(** The text of the address records, nothing when the resolver raised. *)
Definition addresses (r : result (list rdata)) : list string :=
  match r with
  | Ok answers => to_text <$> answers
  | Err _ => []
  end.

(** The names of the mail exchanges, nothing when the resolver raised or
    when an answer has no exchange. *)
Definition exchanges (r : result (list rdata)) : list string :=
  match r with
  | Ok answers =>
      match result_mapM exchange_to_text answers with
      | Ok names => names
      | Err _ => []
      end
  | Err _ => []
  end.

(** The headers that arrive within the timeout. *)
Definition delivered (timeout : N) (rep : reply) : gmap string string :=
  match rep with
  | Reply latency (Ok headers) => if (latency <=? timeout)%N then headers else ∅
  | Reply _ (Err _) | Silent => ∅
  end.

(** The time the caller spends waiting for them. *)
Definition delay (timeout : N) (rep : reply) : N :=
  match rep with
  | Reply latency _ => N.min latency timeout
  | Silent => timeout
  end.

Definition stringified `{!Builtins} (v : pyval) : option string :=
  if truthy v then Some (builtin_str v) else None.

(** The registry fields that are kept, nothing when the client raised. *)
Definition registry_fields `{!Builtins} (r : result (gmap string pyval)) : gmap string string :=
  match r with
  | Ok w => omap stringified w
  | Err _ => ∅
  end.

(** The events of one probe, in the order in which they happen. *)
Definition probe_events (target : string) : list event :=
  [EvResolve target "A"; EvResolve target "MX"; EvWhois target;
   EvHttpGet ("http://" +:+ target) (Some 5%N)].

Definition opens_for_reading (ev : event) : Prop :=
  match ev with
  | EvOpenRead _ => True
  | _ => False
  end.

(** The request got no usable answer within the timeout: the peer stayed
    silent, the transport raised, or the response came too late. *)
Definition failed (timeout : N) (rep : reply) : Prop :=
  match rep with
  | Silent => True
  | Reply _ (Err _) => True
  | Reply latency (Ok _) => (timeout < latency)%N
  end.

(** ** The monad of effects *)

Section program.
Context {builtins : Builtins} {W : Type} {host : Host W}.

Record io_state := IoState {
  world : W;
  trace : list event;
  waited : N
}.

Definition IO (A : Type) : Type := io_state → outcome A * io_state.

#[export] Instance io_ret : MRet IO := λ A a st, (Returned a, st).

#[export] Instance io_bind : MBind IO := λ A B k m st,
  match m st with
  | (Returned a, st') => k a st'
  | (Raised e, st') => (Raised e, st')
  | (Hangs, st') => (Hangs, st')
  end.

Definition raise {A : Type} (e : exn) : IO A := λ st, (Raised e, st).

Definition hang {A : Type} : IO A := λ st, (Hangs, st).

(** [try: body  except Exception: handler] *)
Definition try_except {A : Type} (body : IO A) (handler : exn → IO A) : IO A := λ st,
  match body st with
  | (Raised e, st') => handler e st'
  | r => r
  end.

Definition emit (ev : event) : IO () := λ st,
  (Returned (), IoState (world st) (trace st ++ [ev]) (waited st)).

Definition wait (d : N) : IO () := λ st,
  (Returned (), IoState (world st) (trace st) (waited st + d)).

(** Ask an oracle of the host. *)
Definition ask {A : Type} (f : W → A * W) : IO A := λ st,
  let '(a, w) := f (world st) in
  (Returned a, IoState w (trace st) (waited st)).

Definition lift {A : Type} (r : result A) : IO A :=
  match r with
  | Ok a => mret a
  | Err e => raise e
  end.

Definition print (line : string) : IO () := emit (EvPrint line).

(** ** Library calls *)

Definition resolve (qname rdtype : string) : IO (list rdata) :=
  emit (EvResolve qname rdtype);;
  r ← ask (resolver_resolve qname rdtype);
  lift r.

Definition whois (domain : string) : IO (gmap string pyval) :=
  emit (EvWhois domain);;
  r ← ask (whois_whois domain);
  lift r.

Definition utcnow : IO datetime := ask clock.

(** [session.get(url, timeout=...)]: the request goes out, then the
    coroutine is suspended until the response or the deadline. With a total
    timeout [t] the client gives up [t] time units after the request; without
    one it waits for as long as the peer stays silent. *)
Definition session_send (url : string) (timeout : option N) : IO () :=
  emit (EvHttpGet url timeout).

Definition session_recv (url : string) (timeout : option N) : IO (gmap string string) :=
  rep ← ask (transport url);
  match rep, timeout with
  | Reply latency r, Some t =>
      if (latency <=? t)%N then wait latency;; lift r
      else wait t;; raise TimeoutError
  | Reply latency r, None => wait latency;; lift r
  | Silent, Some t => wait t;; raise TimeoutError
  | Silent, None => hang
  end.

Definition session_get (url : string) (timeout : option N) : IO (gmap string string) :=
  session_send url timeout;; session_recv url timeout.

(** ** Recon functions *)

Definition fetch_http_headers (url : string) : IO (gmap string string) :=
  try_except
    (headers ← session_get url (Some 5%N);
     mret headers)
    (λ _, mret ∅).

Definition dns_lookup (target : string) : IO (gmap string (list string)) :=
  let records : gmap string (list string) := ∅ in
  records ← try_except
    (answers ← resolve target "A";
     mret (<["A" := to_text <$> answers]> records))
    (λ _, mret (<["A" := []]> records));
  records ← try_except
    (answers ← resolve target "MX";
     exchanges ← lift (result_mapM exchange_to_text answers);
     mret (<["MX" := exchanges]> records))
    (λ _, mret (<["MX" := []]> records));
  mret records.

Definition whois_lookup (target : string) : IO (gmap string string) :=
  try_except
    (w ← whois target;
     mret (omap (λ v, if truthy v then Some (builtin_str v) else None) w))
    (λ _, mret ∅).

Definition recon_target (target : string) : IO ReconResult :=
  dns_records ← dns_lookup target;
  whois_data ← whois_lookup target;
  http_headers ← fetch_http_headers ("http://" +:+ target);
  timestamp ← utcnow;
  mret {| target := target;
          dns_records := dns_records;
          whois_data := whois_data;
          http_headers := http_headers;
          timestamp := timestamp |}.

(** ** The event loop of [run_recon] *)

(** Where the coroutine [bound_recon(t)] of one target stands. *)
Inductive task :=
| Pending (t : string)
    (** created, not yet past [async with sem] *)
| Running (t : string) (dns_records : gmap string (list string))
    (whois_data : gmap string string)
    (** holds a slot of the semaphore, suspended in [session.get] *)
| Blocked (t : string)
    (** holds a slot, suspended for ever *)
| Done.
    (** left [async with sem]; its result is with [as_completed] *)

Record sched := Sched {
  sem_value : Z;
    (** the counter of [asyncio.Semaphore] *)
  tasks : list task;
  done_queue : list (result ReconResult);
    (** finished coroutines in completion order, not yet awaited *)
  results : list ReconResult
}.

(** [asyncio.Semaphore(value)] *)
Definition Semaphore (value : Z) : IO Z :=
  if (value <? 0)%Z then raise (ValueError "Semaphore initial value must be >= 0")
  else mret value.

(** [recon_target] up to its only suspension point: the lookups that block
    the thread, then the HTTP request goes out. *)
Definition recon_target_begin (target : string)
    : IO (gmap string (list string) * gmap string string) :=
  dns_records ← dns_lookup target;
  whois_data ← whois_lookup target;
  session_send ("http://" +:+ target) (Some 5%N);;
  mret (dns_records, whois_data).

(** [recon_target] from the moment the event loop resumes it. *)
Definition recon_target_resume (target : string)
    (dns_records : gmap string (list string)) (whois_data : gmap string string)
    : IO ReconResult :=
  http_headers ← try_except
    (headers ← session_recv ("http://" +:+ target) (Some 5%N);
     mret headers)
    (λ _, mret ∅);
  timestamp ← utcnow;
  mret {| target := target;
          dns_records := dns_records;
          whois_data := whois_data;
          http_headers := http_headers;
          timestamp := timestamp |}.

(** A task keeps the exception its coroutine ends with. *)
Definition attempt {A : Type} (m : IO A) : IO (result A) := λ st,
  match m st with
  | (Returned a, st') => (Returned (Ok a), st')
  | (Raised e, st') => (Returned (Err e), st')
  | (Hangs, st') => (Hangs, st')
  end.

(** A coroutine that is suspended for ever leaves the loop running. *)
Definition suspended {A : Type} (m : IO A) : IO (option A) := λ st,
  match m st with
  | (Returned a, st') => (Returned (Some a), st')
  | (Raised e, st') => (Raised e, st')
  | (Hangs, st') => (Returned None, st')
  end.

Inductive action :=
| Launch (i : nat)
| Finish (i : nat)
| Collect.

(** Task [i] acquires the semaphore and runs up to the HTTP request. *)
Definition launch (i : nat) (t : string) (s : sched) : IO sched :=
  r ← attempt (recon_target_begin t);
  match r with
  | Ok (dns_records, whois_data) =>
      mret (Sched (sem_value s - 1) (<[i := Running t dns_records whois_data]> (tasks s))
                  (done_queue s) (results s))
  | Err e =>
      mret (Sched (sem_value s) (<[i := Done]> (tasks s))
                  (done_queue s ++ [Err e]) (results s))
  end.

(** Task [i] is resumed, builds its record and releases the semaphore. *)
Definition finish (i : nat) (t : string) (dns_records : gmap string (list string))
    (whois_data : gmap string string) (s : sched) : IO sched :=
  r ← suspended (attempt (recon_target_resume t dns_records whois_data));
  match r with
  | Some r =>
      mret (Sched (sem_value s + 1) (<[i := Done]> (tasks s))
                  (done_queue s ++ [r]) (results s))
  | None =>
      mret (Sched (sem_value s) (<[i := Blocked t]> (tasks s))
                  (done_queue s) (results s))
  end.

(** One turn of [for future in asyncio.as_completed(tasks)]. *)
Definition collect (s : sched) : IO sched :=
  match done_queue s with
  | [] => mret s
  | Err e :: _ => raise e
  | Ok result :: queue =>
      let results := results s ++ [result] in
      print ("[INFO] Finished recon for " +:+ target result);;
      mret (Sched (sem_value s) (tasks s) queue results)
  end.

Definition exec (a : action) (s : sched) : IO sched :=
  match a with
  | Launch i =>
      match tasks s !! i with
      | Some (Pending t) => launch i t s
      | _ => mret s
      end
  | Finish i =>
      match tasks s !! i with
      | Some (Running t dns_records whois_data) => finish i t dns_records whois_data s
      | _ => mret s
      end
  | Collect => collect s
  end.

Definition task_actions (sem : Z) (i : nat) (tk : task) : list action :=
  match tk with
  | Pending _ => if (0 <? sem)%Z then [Launch i] else []
  | Running _ _ _ => [Finish i]
  | Blocked _ | Done => []
  end.

(** What the event loop can do next. *)
Definition enabled (s : sched) : list action :=
  match done_queue s with
  | [] => []
  | _ :: _ => [Collect]
  end ++ mjoin (imap (task_actions (sem_value s)) (tasks s)).

(** The loop of [as_completed] ends after one result per task. *)
Definition finished (s : sched) : bool :=
  bool_decide (length (results s) = length (tasks s)).

Fixpoint event_loop (fuel : nat) (s : sched) : IO (list ReconResult) :=
  if finished s then mret (results s)
  else
    let acts := enabled s in
    match acts, fuel with
    | [], _ => hang
    | _ :: _, 0 => hang
    | a0 :: _, S fuel' =>
        k ← ask (next_ready (length acts));
        s' ← exec (nth (k mod length acts) acts a0) s;
        event_loop fuel' s'
    end.

Definition initial (sem : Z) (targets : list string) : sched :=
  Sched sem (Pending <$> targets) [] [].

(** No task takes more than three turns of the loop. *)
Definition run_recon (targets : list string) (concurrency : Z) : IO (list ReconResult) :=
  sem ← Semaphore concurrency;
  event_loop (3 * length targets) (initial sem targets).

(** The transition relation of the loop, for any resumption order: the
    loop consults the host and takes one of the actions that are enabled. *)
Definition config : Type := sched * io_state.

Definition step (c c' : config) : Prop :=
  ∃ a, a ∈ enabled c.1 ∧
       (ask (next_ready (length (enabled c.1)));; exec a c.1) c.2 = (Returned c'.1, c'.2).

Definition holds_slot (tk : task) : nat :=
  match tk with
  | Running _ _ _ | Blocked _ => 1
  | Pending _ | Done => 0
  end.

(** The number of probes in flight. *)
Definition running (s : sched) : nat := sum_list_with holds_slot (tasks s).

(** ** The events of a computation *)

(** The state [st'] comes after [st], and the events in between satisfy [P]. *)
Definition grows (P : event → Prop) (st st' : io_state) : Prop :=
  ∃ evs, trace st' = trace st ++ evs ∧ Forall P evs.

(** However [m] ends, it has caused only events that satisfy [P]. *)
Definition emits_only {A : Type} (P : event → Prop) (m : IO A) : Prop :=
  ∀ st, grows P st (m st).2.

(** ** The command line *)

(** The namespace [argparse] hands over: [-t], [-l] and [-c] (an [int],
    5 when the option is absent). *)
Record Namespace := {
  arg_target : option string;
  arg_list : option string;
  arg_concurrency : Z
}.

(** [if args.target:] holds for a string that is there and not empty. *)
Definition given (o : option string) : option string :=
  match o with
  | Some s => if str_truthy s then Some s else None
  | None => None
  end.

Definition report_path : string := "specterscope_report.json".

(** The deepest chain of calls the encoder may build. *)
Definition recursion_limit : nat := 1000.

(** [with open(path) as f: [line.strip() for line in f if line.strip()]] *)
Definition read_targets (path : string) : IO (list string) :=
  emit (EvOpenRead path);;
  r ← ask (read_lines path);
  lines ← lift r;
  mret (strip <$> filter (λ line, str_truthy (strip line) = true) lines).

(** [with open(path, "w") as f: json.dump(obj, f, indent=2, default=...)] *)
Definition dump_report (path : string) (obj : pyval) : IO () :=
  emit (EvOpenWrite path);;
  r ← ask (open_write path);
  lift r;;
  match json_encode json_converter recursion_limit obj with
  | Some doc => emit (EvDump path doc)
  | None => raise (Exception "TypeError")
  end.

(** [run_cli] once the targets are collected. *)
Definition run_cli_recon (targets : list string) (concurrency : Z) : IO () :=
  print ("[INFO] Starting SpecterScope recon for " +:+ pretty (length targets)
         +:+ " target(s) with concurrency=" +:+ pretty concurrency);;
  reports ← run_recon targets concurrency;
  dump_report report_path (PyList (asdict <$> reports));;
  print "[INFO] Recon complete. Results saved to specterscope_report.json".

Definition run_cli (args : Namespace) : IO () :=
  match given (arg_target args) with
  | Some t => run_cli_recon [t] (arg_concurrency args)
  | None =>
      match given (arg_list args) with
      | Some path =>
          targets ← read_targets path;
          run_cli_recon targets (arg_concurrency args)
      | None => print "Please provide -t <target> or -l <file>"
      end
  end.

End program.

Arguments IO W A : clear implicits.
Arguments io_state W : clear implicits.
Arguments config W : clear implicits.

(** ** The invariant of the event loop *)

(** The targets whose coroutine has not ended yet. *)
Definition task_target (tk : task) : option string :=
  match tk with
  | Pending t | Running t _ _ | Blocked t => Some t
  | Done => None
  end.

Definition is_done (tk : task) : nat :=
  match tk with
  | Done => 1
  | _ => 0
  end.

Definition is_blocked (tk : task) : nat :=
  match tk with
  | Blocked _ => 1
  | _ => 0
  end.

(** The turns of the loop a task still takes. *)
Definition weight (tk : task) : nat :=
  match tk with
  | Pending _ => 3
  | Running _ _ _ => 2
  | Blocked _ | Done => 0
  end.

Definition turns_left (s : sched) : nat :=
  sum_list_with weight (tasks s) + length (done_queue s).

Definition queued_target (r : result ReconResult) : option string :=
  match r with
  | Ok r => Some (target r)
  | Err _ => None
  end.

(** When the loop may take an action. *)
Definition can_run (a : action) (s : sched) : Prop :=
  match a with
  | Collect => done_queue s ≠ []
  | Launch i => ∃ t, tasks s !! i = Some (Pending t) ∧ (0 < sem_value s)%Z
  | Finish i => ∃ t dns who, tasks s !! i = Some (Running t dns who)
  end.

Record invariant (concurrency : Z) (targets : list string) (s : sched) : Prop := {
  inv_sem : (0 ≤ sem_value s)%Z;
  inv_slots : (sem_value s + Z.of_nat (running s))%Z = concurrency;
  inv_blocked : sum_list_with is_blocked (tasks s) = 0;
  inv_queue : Forall (λ r, ∃ x, r = Ok x) (done_queue s);
  inv_done : sum_list_with is_done (tasks s) = length (done_queue s) + length (results s);
  inv_targets :
    (target <$> results s) ++ omap queued_target (done_queue s)
      ++ omap task_target (tasks s) ≡ₚ targets
}.

(** ** The history of a run *)

(** The line [run_recon] prints for a record. *)
Definition progress_line (r : ReconResult) : string :=
  "[INFO] Finished recon for " +:+ target r.

(** The lines printed among some events, and the other events. *)
Definition printed (evs : list event) : list string :=
  omap (λ ev, match ev with EvPrint line => Some line | _ => None end) evs.

Definition lookups (evs : list event) : list event :=
  omap (λ ev, match ev with EvPrint _ => None | _ => Some ev end) evs.

(** The targets whose coroutine waits for the semaphore, and those whose
    coroutine holds a slot. *)
Definition waiting (s : sched) : list string :=
  omap (λ tk, match tk with Pending t => Some t | _ => None end) (tasks s).

Definition in_flight (s : sched) : list string :=
  omap (λ tk, match tk with Running t _ _ | Blocked t => Some t | _ => None end) (tasks s).

(** The targets in the order in which their probes were started, as far as
    a state shows it: collected, completed, in flight. *)
Definition started (s : sched) : list string :=
  (target <$> results s) ++ omap queued_target (done_queue s) ++ in_flight s.

(** The events that touch the report. *)
Definition writes_report (ev : event) : Prop :=
  match ev with
  | EvOpenWrite _ | EvDump _ _ => True
  | _ => False
  end.

(** ** Lines of a list file *)


(** ** Two concrete hosts *)

Module Demo.

(** [str] on the scalar values (the demo data holds no other). *)
Definition scalar_str (v : pyval) : string :=
  match v with
  | PyNone => "None"
  | PyBool true => "True"
  | PyBool false => "False"
  | PyInt n => pretty n
  | PyStr s => s
  | PyDatetime o => zpad 4 (year o) +:+ "-" +:+ zpad 2 (month o) +:+ "-" +:+ zpad 2 (day o)
                    +:+ " " +:+ time_part o
  | PyDate o => date_isoformat o
  | PyObj name => name
  | PyList _ | PyDict _ => "<container>"
  end.

Definition builtins : Builtins := {| builtin_str := scalar_str |}.

Definition newline : string := String (Ascii.ascii_of_nat 10) "".

Definition files (path : string) : result (list string) :=
  if String.eqb path "targets.txt"
  then Ok ["a.test" +:+ newline; "  " +:+ newline; " b.test  "]
  else if String.eqb path "empty.txt" then Ok []
  else Err (OSError "No such file or directory").

(** The world is the number of oracle calls so far; the clock shows it in
    its microseconds, and the event loop resumes coroutine [calls mod n]. *)
Definition online : Host nat := {|
  resolver_resolve _ rdtype w :=
    (if String.eqb rdtype "A" then Ok [A_rdata "192.0.2.1"; A_rdata "192.0.2.2"]
     else Ok [MX_rdata 10 "mail.a.test."], S w);
  whois_whois domain w :=
    (Ok (<["domain_name" := PyStr domain]> (<["dnssec" := PyStr ""]>
         (<["registrar" := PyNone]> (<["updated" := PyDate (Date 2024 1 2)]> ∅)))), S w);
  transport _ w := (Reply 2 (Ok (<["Server" := "demo"]> ∅)), S w);
  clock w := (Datetime 2024 1 2 3 4 5 w, S w);
  read_lines path w := (files path, S w);
  open_write _ w := (Ok (), S w);
  next_ready _ w := (w, S w)
|}.

(** Every lookup fails: the resolver and the registry client raise, the
    web server never answers. *)
Definition offline : Host nat := {|
  resolver_resolve _ _ w := (Err (Exception "NXDOMAIN"), S w);
  whois_whois _ w := (Err (Exception "PywhoisError"), S w);
  transport _ w := (Silent, S w);
  clock w := (Datetime 2024 1 2 3 4 5 w, S w);
  read_lines path w := (files path, S w);
  open_write _ w := (Ok (), S w);
  next_ready _ w := (w, S w)
|}.

Definition start : io_state nat := IoState 0 [] 0.

(** Command lines: [-t a.test -l targets.txt], [-t "" -l targets.txt],
    [-t a.test -c 0], [-l empty.txt -c 0] and [-t a.test -c -1]. *)
Definition both_options : Namespace :=
  {| arg_target := Some "a.test"; arg_list := Some "targets.txt"; arg_concurrency := 5 |}.

Definition empty_target : Namespace :=
  {| arg_target := Some ""; arg_list := Some "targets.txt"; arg_concurrency := 5 |}.

Definition zero_bound : Namespace :=
  {| arg_target := Some "a.test"; arg_list := None; arg_concurrency := 0 |}.

Definition zero_bound_no_targets : Namespace :=
  {| arg_target := None; arg_list := Some "empty.txt"; arg_concurrency := 0 |}.

Definition negative_bound : Namespace :=
  {| arg_target := Some "a.test"; arg_list := None; arg_concurrency := -1 |}.

(** [-t "" -c -3], and [-l nofile.txt]. *)
Definition no_source : Namespace :=
  {| arg_target := Some ""; arg_list := None; arg_concurrency := -3 |}.

Definition missing_file : Namespace :=
  {| arg_target := None; arg_list := Some "nofile.txt"; arg_concurrency := 5 |}.

(** As [online], in a directory where no file can be written. *)
Definition read_only : Host nat := {|
  resolver_resolve := @resolver_resolve nat online;
  whois_whois := @whois_whois nat online;
  transport := @transport nat online;
  clock := @clock nat online;
  read_lines := @read_lines nat online;
  open_write _ w := (Err (OSError "Permission denied"), S w);
  next_ready := @next_ready nat online
|}.

End Demo.

(** * Properties *)

(** Unfolds the operations of the monad, so that a computation becomes a
    function of the state. *)
Ltac io_unfold :=
  unfold resolve, whois, utcnow, session_get, session_send, session_recv,
    print, try_except, attempt, suspended, ask, emit, wait, lift, raise, hang,
    mbind, io_bind, mret, io_ret in *.

Section lookups.
Context {builtins : Builtins} {W : Type} {host : Host W}.
Implicit Types (st : io_state W) (target url : string).

Lemma bind_returned {A B} (m : IO W A) (k : A → IO W B) st a st' :
  m st = (Returned a, st') → (m ≫= k) st = k a st'.
Proof. intros Hm. unfold mbind, io_bind. by rewrite Hm. Qed.

Lemma bind_raised {A B} (m : IO W A) (k : A → IO W B) st e st' :
  m st = (Raised e, st') → (m ≫= k) st = (Raised e, st').
Proof. intros Hm. unfold mbind, io_bind. by rewrite Hm. Qed.

Lemma bind_hangs {A B} (m : IO W A) (k : A → IO W B) st st' :
  m st = (Hangs, st') → (m ≫= k) st = (Hangs, st').
Proof. intros Hm. unfold mbind, io_bind. by rewrite Hm. Qed.

(** ** The three lookups as functions of the answers of the host *)

Lemma dns_lookup_eq target st :
  let a := resolver_resolve target "A" (world st) in
  let mx := resolver_resolve target "MX" a.2 in
  dns_lookup target st =
    (Returned (<["MX" := exchanges mx.1]> (<["A" := addresses a.1]> ∅)),
     IoState mx.2 (trace st ++ [EvResolve target "A"; EvResolve target "MX"])
             (waited st)).
Proof.
  unfold dns_lookup. io_unfold. simpl.
  destruct (resolver_resolve target "A" (world st)) as [[answers|e] w1]; simpl;
    (destruct (resolver_resolve target "MX" w1) as [[answers'|e'] w2]; simpl;
     [destruct (result_mapM exchange_to_text answers') as [names|e'']; simpl|]);
    rewrite <- ?(assoc_L (++)); reflexivity.
Qed.

Lemma whois_lookup_eq target st :
  let w := whois_whois target (world st) in
  whois_lookup target st =
    (Returned (registry_fields w.1),
     IoState w.2 (trace st ++ [EvWhois target]) (waited st)).
Proof.
  unfold whois_lookup. io_unfold. simpl.
  destruct (whois_whois target (world st)) as [[entry|e] w1]; reflexivity.
Qed.

Lemma session_recv_eq url st :
  let rep := transport url (world st) in
  try_except (headers ← session_recv url (Some 5%N); mret headers) (λ _, mret ∅) st =
    (Returned (delivered 5 rep.1),
     IoState rep.2 (trace st) (waited st + delay 5 rep.1)).
Proof.
  io_unfold. simpl.
  destruct (transport url (world st)) as [[latency [headers|e]|] w1]; simpl;
    try (destruct (N.leb_spec latency 5); simpl);
    repeat f_equal; lia.
Qed.

Lemma fetch_http_headers_eq url st :
  let rep := transport url (world st) in
  fetch_http_headers url st =
    (Returned (delivered 5 rep.1),
     IoState rep.2 (trace st ++ [EvHttpGet url (Some 5%N)])
             (waited st + delay 5 rep.1)).
Proof.
  unfold fetch_http_headers. io_unfold. simpl.
  destruct (transport url (world st)) as [[latency [headers|e]|] w1]; simpl;
    try (destruct (N.leb_spec latency 5); simpl);
    repeat f_equal; lia.
Qed.

Lemma recon_target_eq target st :
  let a := resolver_resolve target "A" (world st) in
  let mx := resolver_resolve target "MX" a.2 in
  let w := whois_whois target mx.2 in
  let rep := transport ("http://" +:+ target) w.2 in
  let now := clock rep.2 in
  recon_target target st =
    (Returned {| target := target;
                 dns_records := <["MX" := exchanges mx.1]> (<["A" := addresses a.1]> ∅);
                 whois_data := registry_fields w.1;
                 http_headers := delivered 5 rep.1;
                 timestamp := now.1 |},
     IoState now.2 (trace st ++ probe_events target) (waited st + delay 5 rep.1)).
Proof.
  intros a mx w rep now. unfold recon_target.
  erewrite bind_returned by apply dns_lookup_eq.
  erewrite bind_returned by apply whois_lookup_eq.
  erewrite bind_returned by apply fetch_http_headers_eq.
  unfold utcnow, ask, mbind, io_bind, mret, io_ret, probe_events; simpl.
  fold a mx w rep now. destruct now as [ts w5]; simpl.
  rewrite <- !(assoc_L (++)). reflexivity.
Qed.

Lemma recon_target_begin_eq target st :
  let a := resolver_resolve target "A" (world st) in
  let mx := resolver_resolve target "MX" a.2 in
  let w := whois_whois target mx.2 in
  recon_target_begin target st =
    (Returned (<["MX" := exchanges mx.1]> (<["A" := addresses a.1]> ∅),
               registry_fields w.1),
     IoState w.2 (trace st ++ probe_events target) (waited st)).
Proof.
  intros a mx w. unfold recon_target_begin.
  erewrite bind_returned by apply dns_lookup_eq.
  erewrite bind_returned by apply whois_lookup_eq.
  unfold session_send, emit, mbind, io_bind, mret, io_ret, probe_events; simpl.
  rewrite <- !(assoc_L (++)). reflexivity.
Qed.

Lemma recon_target_resume_eq target dns who st :
  let rep := transport ("http://" +:+ target) (world st) in
  let now := clock rep.2 in
  recon_target_resume target dns who st =
    (Returned {| target := target;
                 dns_records := dns;
                 whois_data := who;
                 http_headers := delivered 5 rep.1;
                 timestamp := now.1 |},
     IoState now.2 (trace st) (waited st + delay 5 rep.1)).
Proof.
  intros rep now. unfold recon_target_resume.
  erewrite bind_returned by apply session_recv_eq.
  unfold utcnow, ask, mbind, io_bind, mret, io_ret; simpl.
  fold rep now. by destruct now as [ts w5].
Qed.

(** The coroutine is its first half followed, when it is resumed at once,
    by its second half. *)
Lemma recon_target_split target st :
  recon_target target st =
    (p ← recon_target_begin target; recon_target_resume target p.1 p.2) st.
Proof.
  erewrite (bind_returned (recon_target_begin target)) by apply recon_target_begin_eq.
  rewrite recon_target_eq, recon_target_resume_eq. reflexivity.
Qed.

Lemma delivered_failed timeout rep : failed timeout rep → delivered timeout rep = ∅.
Proof.
  destruct rep as [latency [headers|e]|]; simpl; try done.
  intros Hlate. destruct (N.leb_spec latency timeout); [lia|done].
Qed.

Lemma delay_le timeout rep : (delay timeout rep ≤ timeout)%N.
Proof. destruct rep as [latency r|]; simpl; lia. Qed.

Lemma registry_fields_lookup entry k s :
  registry_fields (Ok entry) !! k = Some s ↔
  ∃ v, entry !! k = Some v ∧ truthy v = true ∧ s = builtin_str v.
Proof.
  simpl. rewrite lookup_omap. unfold stringified.
  destruct (entry !! k) as [v|]; simpl.
  - destruct (truthy v) eqn:Hv; split.
    + intros [= <-]. by exists v.
    + intros (v' & [= <-] & _ & ->). done.
    + done.
    + intros (v' & [= <-] & Hv' & _). congruence.
  - split; [done|]. by intros (v & ? & _).
Qed.

(** ** The lookups tolerate every failure *)

(** C5. [dns_lookup] asks for the "A" and for the "MX" records, in this order
    and whatever the first query did; it always returns, and the entry of a
    category is the text of the answers to its own query, the empty list
    when that query raised. *)
Theorem dns_lookup_categories_independent target st :
  let a := resolver_resolve target "A" (world st) in
  let mx := resolver_resolve target "MX" a.2 in
  ∃ records st',
    dns_lookup target st = (Returned records, st') ∧
    trace st' = trace st ++ [EvResolve target "A"; EvResolve target "MX"] ∧
    records !! "A" = Some (addresses a.1) ∧
    records !! "MX" = Some (exchanges mx.1) ∧
    (∀ e, a.1 = Err e → records !! "A" = Some []) ∧
    (∀ e, mx.1 = Err e → records !! "MX" = Some []).
Proof.
  intros a mx. eexists _, _. split; [apply dns_lookup_eq|]. fold a mx. simpl.
  split_and!; try done.
  - intros e ->. done.
  - intros e ->. done.
Qed.

(** C6. [whois_lookup] always returns a mapping. When the registry client
    answers, a key is in the mapping exactly when its field is truthy, and
    its value is [str] of the field; when the client raises, the mapping is
    empty. *)
Theorem whois_lookup_stringifies target st :
  let w := whois_whois target (world st) in
  ∃ data st',
    whois_lookup target st = (Returned data, st') ∧
    (∀ entry, w.1 = Ok entry →
       ∀ k s, data !! k = Some s ↔
              ∃ v, entry !! k = Some v ∧ truthy v = true ∧ s = builtin_str v) ∧
    (∀ e, w.1 = Err e → data = ∅).
Proof.
  intros w. eexists _, _. split; [apply whois_lookup_eq|]. fold w. split.
  - intros entry ->. apply registry_fields_lookup.
  - intros e ->. done.
Qed.

(** C7. [fetch_http_headers] sends one request with a timeout of 5, waits no
    longer than 5 time units and always returns: the headers that came in
    time, the empty mapping when the request failed. [recon_target] calls it
    at most once, with the URL [http://] followed by the target. *)
Theorem fetch_http_headers_bounded target st :
  (∀ url st0,
     let rep := transport url (world st0) in
     ∃ headers st',
       fetch_http_headers url st0 = (Returned headers, st') ∧
       trace st' = trace st0 ++ [EvHttpGet url (Some 5%N)] ∧
       (waited st' ≤ waited st0 + 5)%N ∧
       headers = delivered 5 rep.1 ∧
       (failed 5 rep.1 → headers = ∅)) ∧
  ∃ r st',
    recon_target target st = (Returned r, st') ∧
    trace st' = trace st ++ [EvResolve target "A"; EvResolve target "MX"; EvWhois target;
                             EvHttpGet ("http://" +:+ target) (Some 5%N)].
Proof.
  split.
  - intros url st0 rep. eexists _, _. split; [apply fetch_http_headers_eq|].
    fold rep. simpl. split_and!; try done.
    + pose proof (delay_le 5 rep.1). lia.
    + apply delivered_failed.
  - eexists _, _. split; [apply recon_target_eq|]. done.
Qed.

(** C9. The [dns_records] of the record of any target have the keys "A" and
    "MX" and no other, whatever the resolver did. *)
Theorem recon_target_dns_keys target st :
  ∃ r st',
    recon_target target st = (Returned r, st') ∧
    dom (dns_records r) = {["A"; "MX"]} ∧
    is_Some (dns_records r !! "A") ∧ is_Some (dns_records r !! "MX").
Proof.
  eexists _, _. split; [apply recon_target_eq|]. simpl. split_and!.
  - rewrite !dom_insert_L, dom_empty_L. set_solver.
  - by rewrite lookup_insert_ne, lookup_insert_eq.
  - by rewrite lookup_insert_eq.
Qed.

(** C3, as amended. [recon_target] returns one record for every target and
    never raises or hangs; the record carries the target and the time the
    clock shows when the lookups are over. A failed category of the resolver
    is an empty list under its key, a failed registry lookup an empty
    [whois_data], a failed request an empty [http_headers]. *)
Theorem recon_target_total (t : string) st :
  let a := resolver_resolve t "A" (world st) in
  let mx := resolver_resolve t "MX" a.2 in
  let w := whois_whois t mx.2 in
  let rep := transport ("http://" +:+ t) w.2 in
  let now := clock rep.2 in
  ∃ r st',
    recon_target t st = (Returned r, st') ∧
    target r = t ∧
    timestamp r = now.1 ∧
    (∀ e, a.1 = Err e → dns_records r !! "A" = Some []) ∧
    (∀ e, mx.1 = Err e → dns_records r !! "MX" = Some []) ∧
    (∀ e, w.1 = Err e → whois_data r = ∅) ∧
    (failed 5 rep.1 → http_headers r = ∅).
Proof.
  intros a mx w rep now. eexists _, _. split; [apply recon_target_eq|].
  fold a mx w rep now. simpl. split_and!; try done.
  - intros e ->. done.
  - intros e ->. done.
  - intros e ->. done.
  - apply delivered_failed.
Qed.

End lookups.

(** ** The event loop *)

Section counting.
Context {A : Type}.
Implicit Types (l : list A) (f : A → nat).

Lemma sum_list_with_insert f l i x y :
  l !! i = Some y →
  sum_list_with f (<[i:=x]> l) + f y = sum_list_with f l + f x.
Proof.
  revert i. induction l as [|z l IH]; intros [|i] Hi; simplify_eq/=; [lia|].
  specialize (IH i Hi). lia.
Qed.

Lemma sum_list_with_pos f l :
  0 < sum_list_with f l → ∃ i x, l !! i = Some x ∧ 0 < f x.
Proof.
  induction l as [|z l IH]; simpl; [lia|]. intros Hpos.
  destruct (decide (0 < f z)) as [Hz|Hz].
  - by exists 0, z.
  - destruct IH as (i & x & Hi & Hx); [lia|]. by exists (S i), x.
Qed.

Lemma sum_list_with_lt_length f l :
  (∀ x, f x ≤ 1) → sum_list_with f l < length l →
  ∃ i x, l !! i = Some x ∧ f x = 0.
Proof.
  intros Hf. induction l as [|z l IH]; simpl; [lia|]. intros Hlt.
  destruct (decide (f z = 0)) as [Hz|Hz].
  - by exists 0, z.
  - pose proof (Hf z). destruct IH as (i & x & Hi & Hx); [lia|]. by exists (S i), x.
Qed.

Lemma sum_list_with_le_length f l :
  (∀ x, f x ≤ 1) → sum_list_with f l ≤ length l.
Proof.
  intros Hf. induction l as [|z l IH]; simpl; [lia|]. pose proof (Hf z). lia.
Qed.

Lemma omap_insert_same {B} (g : A → option B) l i x y :
  l !! i = Some y → g x = g y → omap g (<[i:=x]> l) = omap g l.
Proof.
  revert i. induction l as [|z l IH]; intros [|i] Hi Hg; simplify_eq/=.
  - by rewrite Hg.
  - by rewrite (IH i).
Qed.

Lemma omap_insert_None {B} (g : A → option B) l i x y b :
  l !! i = Some y → g y = Some b → g x = None →
  omap g l ≡ₚ b :: omap g (<[i:=x]> l).
Proof.
  revert i. induction l as [|z l IH]; intros [|i] Hi Hy Hx; simplify_eq/=.
  - by rewrite Hy, Hx.
  - destruct (g z) as [c|]; simpl.
    + rewrite (IH i) by done. apply Permutation_swap.
    + by apply IH.
Qed.

Lemma omap_all_None {B} (g : A → option B) f l :
  (∀ x, f x = 1 → g x = None) → (∀ x, f x ≤ 1) →
  sum_list_with f l = length l → omap g l = [].
Proof.
  intros Hg Hf. induction l as [|z l IH]; simpl; [done|]. intros Hsum.
  pose proof (Hf z). pose proof (sum_list_with_le_length f l Hf).
  rewrite Hg by lia. apply IH. lia.
Qed.

End counting.

Section event_loop.
Context {builtins : Builtins} {W : Type} {host : Host W}.
Implicit Types (st : io_state W) (s : sched) (t : string) (a : action).

(** *** What the three actions do *)

Lemma launch_eq i t s st :
  ∃ dns who st',
    launch i t s st =
      (Returned (Sched (sem_value s - 1) (<[i := Running t dns who]> (tasks s))
                       (done_queue s) (results s)), st') ∧
    trace st' = trace st ++ probe_events t.
Proof.
  unfold launch, attempt, mbind, io_bind.
  rewrite recon_target_begin_eq. eexists _, _, _. split; reflexivity.
Qed.

Lemma finish_eq i t dns who s st :
  ∃ r st',
    target r = t ∧
    finish i t dns who s st =
      (Returned (Sched (sem_value s + 1) (<[i := Done]> (tasks s))
                       (done_queue s ++ [Ok r]) (results s)), st') ∧
    trace st' = trace st.
Proof.
  unfold finish, suspended, attempt, mbind, io_bind.
  rewrite recon_target_resume_eq. eexists _, _. split; [|split; reflexivity]. done.
Qed.

Lemma collect_eq r queue s st :
  done_queue s = Ok r :: queue →
  ∃ st',
    collect s st =
      (Returned (Sched (sem_value s) (tasks s) queue (results s ++ [r])), st').
Proof. intros Hq. unfold collect. rewrite Hq. eexists. reflexivity. Qed.

(** *** Which actions are enabled *)

Lemma elem_of_enabled a s : a ∈ enabled s ↔ can_run a s.
Proof.
  unfold enabled. rewrite elem_of_app, list_elem_of_join. split.
  - intros [Hq|(l & Hl & Himap)].
    + destruct (done_queue s) eqn:Hqueue; [by apply elem_of_nil in Hq|].
      apply list_elem_of_singleton in Hq as ->. simpl. by rewrite Hqueue.
    + apply elem_of_lookup_imap in Himap as (i & tk & -> & Hi).
      destruct tk as [t|t dns who|t|]; simpl in Hl.
      * destruct (Z.ltb_spec 0 (sem_value s)); [|by apply elem_of_nil in Hl].
        apply list_elem_of_singleton in Hl as ->. by exists t.
      * apply list_elem_of_singleton in Hl as ->. by exists t, dns, who.
      * by apply elem_of_nil in Hl.
      * by apply elem_of_nil in Hl.
  - destruct a as [i|i|]; simpl.
    + intros (t & Hi & Hsem). right. exists [Launch i]. split; [set_solver|].
      apply elem_of_lookup_imap. exists i, (Pending t). split; [|done]. simpl.
      destruct (Z.ltb_spec 0 (sem_value s)); [done|lia].
    + intros (t & dns & who & Hi). right. exists [Finish i]. split; [set_solver|].
      apply elem_of_lookup_imap. by exists i, (Running t dns who).
    + intros Hq. left. destruct (done_queue s); [done|set_solver].
Qed.

(** *** Every action keeps the invariant and uses up a turn *)

Lemma holds_slot_le tk : holds_slot tk ≤ 1.
Proof. destruct tk; simpl; lia. Qed.

Lemma is_done_le tk : is_done tk ≤ 1.
Proof. destruct tk; simpl; lia. Qed.

Lemma exec_preserves concurrency targets a s st :
  invariant concurrency targets s → a ∈ enabled s →
  ∃ s' st',
    exec a s st = (Returned s', st') ∧
    invariant concurrency targets s' ∧
    turns_left s' < turns_left s.
Proof.
  intros [Hsem Hslots Hblocked Hqueue Hdone Htargets] Ha.
  apply elem_of_enabled in Ha. unfold running, turns_left in *.
  destruct a as [i|i|]; simpl in Ha.
  - destruct Ha as (t & Hi & Hpos). simpl. rewrite Hi.
    destruct (launch_eq i t s st) as (dns & who & st' & -> & _).
    eexists _, _. split; [done|].
    pose proof (sum_list_with_insert holds_slot _ _ (Running t dns who) _ Hi).
    pose proof (sum_list_with_insert is_blocked _ _ (Running t dns who) _ Hi).
    pose proof (sum_list_with_insert is_done _ _ (Running t dns who) _ Hi).
    pose proof (sum_list_with_insert weight _ _ (Running t dns who) _ Hi).
    simpl in *. split; [split; unfold running; simpl; try lia; try done|lia].
    by rewrite (omap_insert_same task_target _ _ _ _ Hi).
  - destruct Ha as (t & dns & who & Hi). simpl. rewrite Hi.
    destruct (finish_eq i t dns who s st) as (r & st' & Hr & -> & _).
    eexists _, _. split; [done|].
    pose proof (sum_list_with_insert holds_slot _ _ Done _ Hi).
    pose proof (sum_list_with_insert is_blocked _ _ Done _ Hi).
    pose proof (sum_list_with_insert is_done _ _ Done _ Hi).
    pose proof (sum_list_with_insert weight _ _ Done _ Hi).
    simpl in *. rewrite ?length_app in *. simpl.
    split; [split; unfold running; simpl; rewrite ?length_app; simpl; try lia|lia].
    + apply Forall_app. split; [done|]. apply Forall_singleton. by exists r.
    + rewrite <- Htargets.
      rewrite (omap_insert_None task_target (tasks s) i Done _ t Hi) by done.
      rewrite omap_app. simpl. rewrite Hr.
      rewrite <- (assoc_L (++) (omap queued_target (done_queue s))). done.
  - simpl. destruct (done_queue s) as [|r queue] eqn:Hq; [done|].
    apply Forall_cons in Hqueue as [[x ->] Hqueue].
    destruct (collect_eq x queue s st Hq) as (st' & ->).
    eexists _, _. split; [done|]. simpl in *.
    split; [split; unfold running; simpl; rewrite ?length_app; simpl; try lia; try done|lia].
    rewrite <- Htargets, fmap_app. simpl.
    rewrite <- (assoc_L (++) (target <$> results s)). done.
Qed.

(** *** The loop cannot get stuck before it has every result *)

Lemma enabled_progress concurrency targets s :
  invariant concurrency targets s → (1 ≤ concurrency)%Z →
  finished s = false → ∃ a, a ∈ enabled s.
Proof.
  intros [Hsem Hslots Hblocked Hqueue Hdone Htargets] Hc Hfin.
  unfold finished in Hfin. apply bool_decide_eq_false in Hfin.
  destruct (done_queue s) as [|r queue] eqn:Hq.
  2:{ exists Collect. apply elem_of_enabled. simpl. by rewrite Hq. }
  simpl in Hdone.
  pose proof (sum_list_with_le_length is_done (tasks s) is_done_le) as Hle.
  destruct (sum_list_with_lt_length is_done (tasks s) is_done_le)
    as (i & tk & Hi & Htk); [lia|].
  assert (Hnb : ∀ j tk', tasks s !! j = Some tk' → is_blocked tk' = 0).
  { intros j tk' Hj. apply list_elem_of_lookup_2 in Hj.
    pose proof (sum_list_with_in tk' is_blocked (tasks s) Hj). lia. }
  destruct tk as [t|t dns who|t|]; simpl in Htk; try done.
  - destruct (decide (0 < sem_value s)%Z) as [Hpos|Hzero].
    + exists (Launch i). apply elem_of_enabled. by exists t.
    + destruct (sum_list_with_pos holds_slot (tasks s)) as (j & tk' & Hj & Hh).
      { unfold running in Hslots. lia. }
      destruct tk' as [t'|t' dns who|t'|]; simpl in Hh; try lia.
      * exists (Finish j). apply elem_of_enabled. by exists t', dns, who.
      * by specialize (Hnb j _ Hj).
  - exists (Finish i). apply elem_of_enabled. by exists t, dns, who.
  - by specialize (Hnb i _ Hi).
Qed.

(** *** The loop from its first state *)

Lemma invariant_initial concurrency targets :
  (0 ≤ concurrency)%Z → invariant concurrency targets (initial concurrency targets).
Proof.
  intros Hc. unfold initial.
  assert (Hsum : ∀ f, (∀ t, f (Pending t) = 0) →
            sum_list_with f (Pending <$> targets) = 0).
  { intros f Hf. induction targets as [|t l IH]; simpl; [done|]. rewrite Hf. exact IH. }
  split; unfold running; simpl; rewrite ?Hsum by done; try done; try lia.
  clear Hsum. induction targets as [|t l IH]; simpl; [done|].
  apply Permutation_skip. exact IH.
Qed.

Lemma turns_left_initial sem targets :
  turns_left (initial sem targets) = 3 * length targets.
Proof.
  unfold turns_left, initial. simpl. rewrite Nat.add_0_r.
  induction targets as [|t l IH]; [done|].
  rewrite fmap_cons, length_cons. cbn [sum_list_with weight]. rewrite IH. lia.
Qed.

Lemma step_preserves concurrency targets (c c' : config W) :
  invariant concurrency targets c.1 → step c c' →
  invariant concurrency targets c'.1 ∧ turns_left c'.1 < turns_left c.1.
Proof.
  intros Hinv (a & Ha & Hexec).
  unfold mbind, io_bind, ask in Hexec.
  destruct (next_ready _ _) as [k w1]. simpl in Hexec.
  edestruct (exec_preserves concurrency targets a c.1) as (s' & st' & Hs' & Hinv' & Hlt);
    [done..|].
  rewrite Hs' in Hexec. by simplify_eq.
Qed.

Lemma reachable_invariant concurrency targets (c c' : config W) :
  invariant concurrency targets c.1 → rtc step c c' →
  invariant concurrency targets c'.1.
Proof.
  intros Hinv Hrtc. induction Hrtc as [|c1 c2 c3 Hstep _ IH]; [done|].
  apply IH. by eapply step_preserves.
Qed.

(** With every result collected, the batch is the targets in some order. *)
Lemma finished_batch concurrency targets s :
  invariant concurrency targets s → finished s = true →
  length (results s) = length targets ∧ target <$> results s ≡ₚ targets.
Proof.
  intros [Hsem Hslots Hblocked Hqueue Hdone Htargets] Hfin.
  unfold finished in Hfin. apply bool_decide_eq_true in Hfin.
  pose proof (sum_list_with_le_length is_done (tasks s) is_done_le) as Hle.
  assert (done_queue s = []) as Hq by (apply length_zero_iff_nil; lia).
  rewrite Hq in *. simpl in *.
  rewrite (omap_all_None task_target is_done) in Htargets.
  - rewrite !(right_id_L [] (++)) in Htargets. split; [|done].
    apply Permutation_length in Htargets. by rewrite length_fmap in Htargets.
  - by intros [].
  - apply is_done_le.
  - lia.
Qed.

Lemma event_loop_S fuel s :
  event_loop (S fuel) s =
    if finished s then mret (results s)
    else match enabled s with
         | [] => hang
         | a0 :: acts =>
             k ← ask (next_ready (S (length acts)));
             s' ← exec (nth (k mod S (length acts)) (a0 :: acts) a0) s;
             event_loop fuel s'
         end.
Proof. cbn [event_loop]. by destruct (finished s), (enabled s). Qed.

Lemma event_loop_total concurrency targets fuel s st :
  invariant concurrency targets s → (1 ≤ concurrency)%Z → turns_left s ≤ fuel →
  ∃ s' st',
    event_loop fuel s st = (Returned (results s'), st') ∧
    rtc step (s, st) (s', st') ∧ finished s' = true.
Proof.
  revert s st. induction fuel as [|fuel IH]; intros s st Hinv Hc Hfuel.
  - destruct (finished s) eqn:Hfin.
    + exists s, st. simpl. rewrite Hfin. done.
    + destruct (enabled_progress _ _ _ Hinv Hc Hfin) as [a Ha].
      destruct (exec_preserves _ _ a s st Hinv Ha) as (? & ? & _ & _ & ?). lia.
  - destruct (finished s) eqn:Hfin.
    + exists s, st. simpl. rewrite Hfin. done.
    + destruct (enabled_progress _ _ _ Hinv Hc Hfin) as [a Ha].
      rewrite event_loop_S, Hfin.
      destruct (enabled s) as [|a0 acts] eqn:Hen; [by apply elem_of_nil in Ha|].
      unfold mbind at 1, io_bind at 1, ask at 1.
      destruct (next_ready _ _) as [k w1] eqn:Hready. cbn [fst snd].
      set (st1 := IoState w1 (trace st) (waited st)).
      set (a1 := nth (k mod S (length acts)) (a0 :: acts) a0).
      assert (a1 ∈ enabled s) as Ha1.
      { rewrite Hen. apply list_elem_of_In, nth_In. cbn [length].
        apply Nat.mod_upper_bound. lia. }
      destruct (exec_preserves _ _ a1 s st1 Hinv Ha1) as (s1 & st2 & Hexec & Hinv1 & Hlt).
      rewrite Hen in Ha1.
      unfold mbind, io_bind. rewrite Hexec.
      destruct (IH s1 st2 Hinv1 Hc) as (s' & st' & Hloop & Hrtc & Hfin'); [lia|].
      exists s', st'. split; [done|]. split; [|done].
      eapply rtc_l; [|done]. exists a1. cbn [fst snd]. rewrite Hen. split; [done|].
      unfold mbind, io_bind, ask. cbn [length]. rewrite Hready. done.
Qed.

Lemma run_recon_total targets concurrency st :
  (1 ≤ concurrency)%Z →
  ∃ s' st',
    run_recon targets concurrency st = (Returned (results s'), st') ∧
    rtc step (initial concurrency targets, st) (s', st') ∧ finished s' = true.
Proof.
  intros Hc. unfold run_recon, Semaphore.
  destruct (Z.ltb_spec concurrency 0); [lia|].
  unfold mbind, io_bind, mret, io_ret.
  apply (event_loop_total concurrency targets); [|done|].
  - apply invariant_initial. lia.
  - by rewrite turns_left_initial.
Qed.

(** C1. With a concurrency bound of at least 1, [run_recon] returns a batch
    with as many records as there are targets, and the targets of the
    records are the given targets, each as often as it was given, in some
    order. This holds for every host, so whatever lookups fail. *)
Theorem run_recon_one_record_per_target targets concurrency st :
  (1 ≤ concurrency)%Z →
  ∃ batch st',
    run_recon targets concurrency st = (Returned batch, st') ∧
    length batch = length targets ∧
    target <$> batch ≡ₚ targets.
Proof.
  intros Hc.
  destruct (run_recon_total targets concurrency st Hc) as (s' & st' & Hrun & Hrtc & Hfin).
  exists (results s'), st'. split; [done|].
  apply (finished_batch concurrency); [|done].
  apply (reachable_invariant concurrency targets (initial concurrency targets, st) (s', st'));
    [|done].
  apply invariant_initial. lia.
Qed.

(** C2. In every state the loop reaches from its first one, however the
    coroutines are resumed, the probes in flight are no more than the bound:
    the counter of the semaphore is the bound less their number and never
    negative. A probe starts only with a positive counter, which it takes
    down by one, and a probe that ends puts the counter up by one. *)
Theorem running_never_exceeds_concurrency targets concurrency st s st' :
  (0 ≤ concurrency)%Z →
  rtc step (initial concurrency targets, st) (s, st') →
  (Z.of_nat (running s) ≤ concurrency)%Z ∧
  (0 ≤ sem_value s)%Z ∧
  sem_value s = (concurrency - Z.of_nat (running s))%Z ∧
  ∀ s2 st2, step (s, st') (s2, st2) →
    (running s2 = S (running s) →
       (0 < sem_value s)%Z ∧ sem_value s2 = (sem_value s - 1)%Z) ∧
    (S (running s2) = running s → sem_value s2 = (sem_value s + 1)%Z).
Proof.
  intros Hc Hrtc.
  pose proof (reachable_invariant concurrency targets (initial concurrency targets, st)
                (s, st') (invariant_initial concurrency targets Hc) Hrtc) as Hinv.
  simpl in Hinv.
  pose proof (inv_sem _ _ _ Hinv) as Hsem. pose proof (inv_slots _ _ _ Hinv) as Hslots.
  split_and!; try lia.
  intros s2 st2 Hstep.
  destruct (step_preserves concurrency targets (s, st') (s2, st2) Hinv Hstep) as [Hinv2 _].
  pose proof (inv_sem _ _ _ Hinv2) as Hsem2. pose proof (inv_slots _ _ _ Hinv2) as Hslots2.
  simpl in *. lia.
Qed.

End event_loop.

(** ** The report *)

Section report.
Context {builtins : Builtins}.
Implicit Types (default g : pyval → pyval) (depth : nat) (o v : pyval).

Lemma reads_back_str default depth s :
  reads_back default (S depth) (PyStr s) (PyStr s).
Proof. by exists (JString s). Qed.

Lemma reads_back_datetime depth ts :
  reads_back json_converter (S (S depth)) (PyDatetime ts) (PyStr (isoformat ts)).
Proof. by exists (JString (isoformat ts)). Qed.

Lemma reads_back_list default depth l g :
  (∀ o, o ∈ l → reads_back default depth o (g o)) →
  reads_back default (S depth) (PyList l) (PyList (g <$> l)).
Proof.
  intros Hl.
  assert (∃ docs, mapM (json_encode default depth) l = Some docs ∧
                  json_decode <$> docs = g <$> l) as (docs & Hdocs & Hdec).
  { induction l as [|o l IH]; [by exists []|].
    destruct (Hl o) as (doc & Hdoc & Hback); [apply elem_of_cons; by left|].
    destruct IH as (docs & Hdocs & Hdec).
    { intros o' Ho'. apply Hl, elem_of_cons. by right. }
    exists (doc :: docs). cbn. rewrite Hdoc. cbn. rewrite Hdocs. cbn.
    by rewrite Hback, <- Hdec. }
  exists (JArray docs). cbn [json_encode]. rewrite Hdocs. cbn.
  split; [done|]. by f_equal.
Qed.

Lemma reads_back_dict default depth (d : gmap string pyval) g :
  (∀ k o, d !! k = Some o → reads_back default depth o (g o)) →
  reads_back default (S depth) (PyDict d) (PyDict (g <$> d)).
Proof.
  intros Hd.
  assert (∀ l : list (string * pyval),
    (∀ k o, (k, o) ∈ l → reads_back default depth o (g o)) →
    ∃ members,
      mapM (λ kv, pair kv.1 <$> json_encode default depth kv.2) l = Some members ∧
      (λ '(k, v), (k, json_decode v)) <$> members = prod_map id g <$> l) as Hmembers.
  { induction l as [|[k o] l IH]; intros Hl; [by exists []|].
    destruct (Hl k o) as (doc & Hdoc & Hback); [apply elem_of_cons; by left|].
    destruct IH as (members & Hmem & Hdec).
    { intros k' o' Ho'. apply (Hl k'), elem_of_cons. by right. }
    exists ((k, doc) :: members). cbn. rewrite Hdoc. cbn. rewrite Hmem. cbn.
    by rewrite Hback, <- Hdec. }
  destruct (Hmembers (map_to_list d)) as (members & Hmem & Hdec).
  { intros k o Hko. apply (Hd k). by apply elem_of_map_to_list. }
  exists (JObject members). cbn [json_encode]. rewrite Hmem. cbn.
  split; [done|]. f_equal. rewrite Hdec.
  rewrite <- (list_to_map_proper (prod_map id g <$> map_to_list d)).
  - by rewrite list_to_map_fmap, list_to_map_to_list.
  - rewrite <- list_fmap_compose.
    rewrite (list_fmap_ext _ fst (map_to_list d)); [|by intros ? []].
    apply NoDup_fst_map_to_list.
  - symmetry. apply reverse_Permutation.
Qed.

Lemma reads_back_strings default depth (l : list string) :
  reads_back default (S (S depth)) (PyList (PyStr <$> l)) (PyList (PyStr <$> l)).
Proof.
  rewrite <- (list_fmap_id (PyStr <$> l)) at 2. apply reads_back_list.
  intros o (s & -> & _)%list_elem_of_fmap. apply reads_back_str.
Qed.

Lemma reads_back_record depth r :
  reads_back json_converter (S (S (S (S depth)))) (asdict r) (loaded r).
Proof.
  unfold asdict, loaded.
  set (g := λ o, match o with PyDatetime ts => PyStr (isoformat ts) | _ => o end).
  assert (∀ d d' : gmap string pyval, g <$> d = d' → 
    reads_back json_converter (S (S (S (S depth)))) (PyDict d) (PyDict (g <$> d)) →
    reads_back json_converter (S (S (S (S depth)))) (PyDict d) (PyDict d')) as Hcut
    by (by intros ?? <-).
  apply Hcut; [by rewrite !fmap_insert, fmap_empty|].
  apply reads_back_dict. intros k o Hk.
  repeat (apply lookup_insert_Some in Hk as [[<- <-]|[_ Hk]]); simpl.
  - apply reads_back_str.
  - rewrite <- (map_fmap_id (_ <$> dns_records r)) at 2. apply reads_back_dict.
    intros k' o' (l & <- & _)%lookup_fmap_Some. apply reads_back_strings.
  - rewrite <- (map_fmap_id (_ <$> whois_data r)) at 2. apply reads_back_dict.
    intros k' o' (l & <- & _)%lookup_fmap_Some. apply reads_back_str.
  - rewrite <- (map_fmap_id (_ <$> http_headers r)) at 2. apply reads_back_dict.
    intros k' o' (l & <- & _)%lookup_fmap_Some. apply reads_back_str.
  - apply reads_back_datetime.
  - by rewrite lookup_empty in Hk.
Qed.

(** C8. The report of a batch is written (the encoder does not give up),
    and the document reads back as the list of the records with the fields
    [target], [dns_records], [whois_data] and [http_headers] as they were
    and [timestamp] as the ISO 8601 string of the time stamp. *)
Theorem report_round_trip (batch : list ReconResult) :
  ∃ doc,
    json_encode json_converter recursion_limit (PyList (asdict <$> batch)) = Some doc ∧
    json_decode doc = PyList (loaded <$> batch) ∧
    ∀ r, r ∈ batch →
      getitem (loaded r) "target" = getitem (asdict r) "target" ∧
      getitem (loaded r) "dns_records" = getitem (asdict r) "dns_records" ∧
      getitem (loaded r) "whois_data" = getitem (asdict r) "whois_data" ∧
      getitem (loaded r) "http_headers" = getitem (asdict r) "http_headers" ∧
      getitem (asdict r) "timestamp" = Some (PyDatetime (timestamp r)) ∧
      getitem (loaded r) "timestamp" = Some (PyStr (isoformat (timestamp r))).
Proof.
  destruct (reads_back_list json_converter (4 + 995) (asdict <$> batch)
              (λ o, match o with
                    | PyDict d =>
                        PyDict ((λ o, match o with
                                      | PyDatetime ts => PyStr (isoformat ts)
                                      | _ => o
                                      end) <$> d)
                    | _ => o
                    end)) as (doc & Hdoc & Hback).
  { intros o (r & -> & _)%list_elem_of_fmap.
    destruct (reads_back_record 995 r) as (doc & Hdoc & Hback).
    exists doc. split; [done|]. rewrite Hback. unfold loaded, asdict.
    by rewrite !fmap_insert, fmap_empty. }
  exists doc. split; [exact Hdoc|]. split.
  - rewrite Hback, <- list_fmap_compose. apply (f_equal PyList), list_fmap_ext.
    intros _ r _. unfold loaded, asdict. simpl.
    by rewrite !fmap_insert, fmap_empty.
  - intros r _. unfold loaded, asdict, getitem. by split_and!.
Qed.

End report.

(** ** The command line *)

Section command_line.
Context {builtins : Builtins} {W : Type} {host : Host W}.
Implicit Types (st : io_state W) (s : sched) (P : event → Prop).

(** *** Which events a computation causes *)

Lemma grows_refl P st : grows P st st.
Proof. exists []. by rewrite (right_id_L [] (++)). Qed.

Lemma grows_trans P st1 st2 st3 : grows P st1 st2 → grows P st2 st3 → grows P st1 st3.
Proof.
  intros (evs & Hevs & HP) (evs' & Hevs' & HP'). exists (evs ++ evs').
  split; [by rewrite Hevs', Hevs, (assoc_L (++))|by apply Forall_app].
Qed.

Lemma grows_same_trace P st st' : trace st' = trace st → grows P st st'.
Proof. intros Htr. exists []. by rewrite (right_id_L [] (++)). Qed.

Lemma emits_only_bind {A B} P (m : IO W A) (k : A → IO W B) :
  emits_only P m → (∀ a, emits_only P (k a)) → emits_only P (m ≫= k).
Proof.
  intros Hm Hk st. specialize (Hm st). unfold mbind, io_bind.
  destruct (m st) as [[a|e|] st1]; simpl in *; [|done..].
  eapply grows_trans; [done|]. apply Hk.
Qed.

Lemma emits_only_ret {A} P (a : A) : emits_only P (mret a : IO W A).
Proof. intros st. apply grows_refl. Qed.

Lemma emits_only_raise {A} P e : emits_only P (raise e : IO W A).
Proof. intros st. apply grows_refl. Qed.

Lemma emits_only_lift {A} P (r : result A) : emits_only P (lift r : IO W A).
Proof. destruct r; [apply emits_only_ret|apply emits_only_raise]. Qed.

Lemma emits_only_ask {A} P (f : W → A * W) : emits_only P (ask f).
Proof. intros st. unfold ask. destruct (f (world st)). by apply grows_same_trace. Qed.

Lemma emits_only_emit P ev : P ev → emits_only P (emit ev : IO W ()).
Proof. intros Hev st. exists [ev]. split; [done|]. by apply Forall_singleton. Qed.

Lemma emits_only_exec P a s :
  (∀ line, P (EvPrint line)) →
  (∀ qname rdtype, P (EvResolve qname rdtype)) →
  (∀ domain, P (EvWhois domain)) →
  (∀ url timeout, P (EvHttpGet url timeout)) →
  emits_only P (exec a s).
Proof.
  intros Hprint Hresolve Hwhois Hget st.
  destruct a as [i|i|]; simpl.
  - destruct (tasks s !! i) as [[t|t dns who|t|]|]; try apply grows_refl.
    destruct (launch_eq i t s st) as (dns & who & st' & -> & Htrace).
    exists (probe_events t). split; [done|]. repeat constructor; done.
  - destruct (tasks s !! i) as [[t|t dns who|t|]|]; try apply grows_refl.
    destruct (finish_eq i t dns who s st) as (r & st' & _ & -> & Htrace).
    by apply grows_same_trace.
  - unfold collect. destruct (done_queue s) as [|[r|e] queue]; try apply grows_refl.
    exists [EvPrint ("[INFO] Finished recon for " +:+ target r)]. split; [done|].
    by apply Forall_singleton.
Qed.

Lemma emits_only_event_loop P fuel s :
  (∀ line, P (EvPrint line)) →
  (∀ qname rdtype, P (EvResolve qname rdtype)) →
  (∀ domain, P (EvWhois domain)) →
  (∀ url timeout, P (EvHttpGet url timeout)) →
  emits_only P (event_loop fuel s).
Proof.
  intros Hprint Hresolve Hwhois Hget. revert s.
  induction fuel as [|fuel IH]; intros s.
  - cbn [event_loop]. destruct (finished s), (enabled s);
      first [apply emits_only_ret|intros st; apply grows_refl].
  - rewrite event_loop_S. destruct (finished s); [apply emits_only_ret|].
    destruct (enabled s) as [|a0 acts]; [intros st; apply grows_refl|].
    apply emits_only_bind; [apply emits_only_ask|]. intros k.
    apply emits_only_bind; [by apply emits_only_exec|]. intros s'. apply IH.
Qed.

Lemma emits_only_run_recon P targets concurrency :
  (∀ line, P (EvPrint line)) →
  (∀ qname rdtype, P (EvResolve qname rdtype)) →
  (∀ domain, P (EvWhois domain)) →
  (∀ url timeout, P (EvHttpGet url timeout)) →
  emits_only P (run_recon targets concurrency).
Proof.
  intros Hprint Hresolve Hwhois Hget. unfold run_recon.
  apply emits_only_bind.
  - unfold Semaphore. destruct (concurrency <? 0)%Z;
      [apply emits_only_raise|apply emits_only_ret].
  - intros sem. by apply emits_only_event_loop.
Qed.

Lemma emits_only_run_cli_recon targets concurrency :
  emits_only (λ ev, ¬ opens_for_reading ev) (run_cli_recon targets concurrency).
Proof.
  unfold run_cli_recon, dump_report, print.
  repeat first
    [ apply emits_only_run_recon; simpl; tauto
    | apply emits_only_emit; simpl; tauto
    | apply emits_only_ask
    | apply emits_only_lift
    | apply emits_only_bind; [|intros ?] ].
  match goal with |- context [json_encode ?f ?d ?o] => destruct (json_encode f d o) end;
    [apply emits_only_emit; simpl; tauto|apply emits_only_raise].
Qed.

(** *** A bound below 1 *)

Lemma run_recon_negative targets concurrency st :
  (concurrency < 0)%Z →
  run_recon targets concurrency st =
    (Raised (ValueError "Semaphore initial value must be >= 0"), st).
Proof.
  intros Hc. unfold run_recon, Semaphore, mbind, io_bind, raise.
  destruct (Z.ltb_spec concurrency 0); [done|lia].
Qed.

(** C4, as amended. The bound is not checked before the run. A negative
    bound ends [run_recon] at once with the [ValueError] of the semaphore:
    no lookup was started and the state of the host is as it was. For
    [run_cli] this is after the targets were collected and the first line
    printed; the error goes on to the caller and no report is written. *)
Theorem negative_concurrency_raises targets concurrency st :
  (concurrency < 0)%Z →
  run_recon targets concurrency st =
    (Raised (ValueError "Semaphore initial value must be >= 0"), st) ∧
  run_cli_recon targets concurrency st =
    (Raised (ValueError "Semaphore initial value must be >= 0"),
     IoState (world st)
       (trace st ++ [EvPrint ("[INFO] Starting SpecterScope recon for "
                              +:+ pretty (length targets)
                              +:+ " target(s) with concurrency="
                              +:+ pretty concurrency)])
       (waited st)).
Proof.
  intros Hc. split; [by apply run_recon_negative|].
  unfold run_cli_recon, print, emit. unfold mbind at 1, io_bind at 1.
  by rewrite (bind_raised _ _ _ _ _ (run_recon_negative _ _ _ Hc)).
Qed.

(** *** The two ways to name targets *)

(** C10, as amended. With a single target that is not the empty string,
    [run_cli] runs the recon for this target alone, whether a list file is
    named or not, and no file is opened for reading. *)
Theorem single_target_takes_precedence args t st :
  arg_target args = Some t → t ≠ "" →
  run_cli args st = run_cli_recon [t] (arg_concurrency args) st ∧
  ∃ evs,
    trace (run_cli args st).2 = trace st ++ evs ∧
    ∀ path, EvOpenRead path ∉ evs.
Proof.
  intros Ht Hne.
  assert (run_cli args st = run_cli_recon [t] (arg_concurrency args) st) as Hrun.
  { unfold run_cli. rewrite Ht. simpl. unfold str_truthy.
    destruct (String.eqb_spec t ""); [done|reflexivity]. }
  split; [done|]. rewrite Hrun.
  destruct (emits_only_run_cli_recon [t] (arg_concurrency args) st) as (evs & Hevs & HP).
  exists evs. split; [done|]. intros path Hin.
  rewrite Forall_forall in HP. by apply (HP _ Hin).
Qed.

End command_line.

(** ** Concrete runs *)

(** C3 as it is written does not hold: with a resolver and a registry
    client that raise and a web server that stays silent, the record has
    empty [whois_data] and [http_headers], but its [dns_records] are not the
    empty mapping: they map "A" and "MX" to the empty list. *)
Lemma all_lookups_fail_dns_records_not_empty :
  (∀ qname rdtype w,
     (@resolver_resolve nat Demo.offline qname rdtype w).1 = Err (Exception "NXDOMAIN")) ∧
  (∀ domain w,
     (@whois_whois nat Demo.offline domain w).1 = Err (Exception "PywhoisError")) ∧
  (∀ url w, (@transport nat Demo.offline url w).1 = Silent) ∧
  ∃ r st',
    recon_target (builtins := Demo.builtins) (host := Demo.offline) "a.test" Demo.start
      = (Returned r, st') ∧
    whois_data r = ∅ ∧ http_headers r = ∅ ∧
    dns_records r = <["MX" := []]> (<["A" := []]> ∅) ∧
    dns_records r ≠ ∅.
Proof.
  split_and!; try done.
  eexists _, _. split; [apply recon_target_eq|]. simpl. split_and!; try done.
Qed.

Lemma run_recon_one_record_per_target_witness :
  (1 ≤ 2)%Z ∧
  ∃ batch st',
    run_recon (builtins := Demo.builtins) (host := Demo.offline)
      ["a.test"; "b.test"; "a.test"] 2 Demo.start = (Returned batch, st') ∧
    length batch = length ["a.test"; "b.test"; "a.test"] ∧
    target <$> batch ≡ₚ ["a.test"; "b.test"; "a.test"].
Proof.
  split; [lia|].
  apply (run_recon_one_record_per_target (builtins := Demo.builtins)
           (host := Demo.offline) ["a.test"; "b.test"; "a.test"] 2 Demo.start).
  lia.
Defined.

Lemma running_never_exceeds_concurrency_witness :
  (0 ≤ 1)%Z ∧
  ∃ s st',
    rtc (step (builtins := Demo.builtins) (host := Demo.online))
      (initial 1 ["a.test"; "b.test"], Demo.start) (s, st') ∧
    running s = 1 ∧
    (Z.of_nat (running s) ≤ 1)%Z ∧
    (0 ≤ sem_value s)%Z ∧
    sem_value s = (1 - Z.of_nat (running s))%Z ∧
    ∀ s2 st2, step (builtins := Demo.builtins) (host := Demo.online) (s, st') (s2, st2) →
      (running s2 = S (running s) →
         (0 < sem_value s)%Z ∧ sem_value s2 = (sem_value s - 1)%Z) ∧
      (S (running s2) = running s → sem_value s2 = (sem_value s + 1)%Z).
Proof.
  split; [lia|].
  assert (∃ c, step (builtins := Demo.builtins) (host := Demo.online)
                 (initial 1 ["a.test"; "b.test"], Demo.start) c ∧ running c.1 = 1)
    as ([s st'] & Hstep & Hrunning).
  { eexists (_, _). split.
    - exists (Launch 0). split; [apply elem_of_cons; by left|]. reflexivity.
    - reflexivity. }
  exists s, st'. split; [by apply rtc_once|]. split; [done|].
  apply (running_never_exceeds_concurrency (builtins := Demo.builtins)
           (host := Demo.online) ["a.test"; "b.test"] 1 Demo.start s st').
  - lia.
  - by apply rtc_once.
Defined.

(** C4 as it is written does not hold. With the bound 0 and a target the
    run is not turned down and does not end: after the first line no action
    of the loop is enabled, and not for want of turns. With the bound 0 and
    no targets the run goes through and writes an empty report. *)
Lemma concurrency_zero_not_rejected :
  ((run_cli (builtins := Demo.builtins) (host := Demo.online)
      Demo.zero_bound Demo.start).1 = Hangs ∧
   trace (run_cli (builtins := Demo.builtins) (host := Demo.online)
            Demo.zero_bound Demo.start).2
     = [EvPrint "[INFO] Starting SpecterScope recon for 1 target(s) with concurrency=0"] ∧
   finished (initial 0 ["a.test"]) = false ∧
   enabled (initial 0 ["a.test"]) = []) ∧
  (run_cli (builtins := Demo.builtins) (host := Demo.online)
     Demo.zero_bound_no_targets Demo.start).1 = Returned () ∧
  trace (run_cli (builtins := Demo.builtins) (host := Demo.online)
           Demo.zero_bound_no_targets Demo.start).2
    = [EvOpenRead "empty.txt";
       EvPrint "[INFO] Starting SpecterScope recon for 0 target(s) with concurrency=0";
       EvOpenWrite "specterscope_report.json";
       EvDump "specterscope_report.json" (JArray []);
       EvPrint "[INFO] Recon complete. Results saved to specterscope_report.json"].
Proof. split_and!; vm_compute; reflexivity. Qed.

Lemma negative_concurrency_raises_witness :
  (-1 < 0)%Z ∧
  run_recon (builtins := Demo.builtins) (host := Demo.online) ["a.test"] (-1) Demo.start =
    (Raised (ValueError "Semaphore initial value must be >= 0"), Demo.start) ∧
  run_cli_recon (builtins := Demo.builtins) (host := Demo.online) ["a.test"] (-1) Demo.start =
    (Raised (ValueError "Semaphore initial value must be >= 0"),
     IoState (world Demo.start)
       (trace Demo.start ++ [EvPrint ("[INFO] Starting SpecterScope recon for "
                              +:+ pretty (length ["a.test"])
                              +:+ " target(s) with concurrency="
                              +:+ pretty (-1)%Z)])
       (waited Demo.start)).
Proof.
  split; [lia|].
  apply (negative_concurrency_raises (builtins := Demo.builtins) (host := Demo.online)
           ["a.test"] (-1) Demo.start).
  lia.
Defined.

(** C10 as it is written does not hold: with [-t ""] and a list file, the
    list file is opened and the run takes its targets, two here, from it. *)
Lemma empty_single_target_reads_list :
  arg_target Demo.empty_target = Some "" ∧
  arg_list Demo.empty_target = Some "targets.txt" ∧
  trace (run_cli (builtins := Demo.builtins) (host := Demo.online)
           Demo.empty_target Demo.start).2 !! 0 = Some (EvOpenRead "targets.txt") ∧
  trace (run_cli (builtins := Demo.builtins) (host := Demo.online)
           Demo.empty_target Demo.start).2 !! 1
    = Some (EvPrint "[INFO] Starting SpecterScope recon for 2 target(s) with concurrency=5").
Proof. split_and!; vm_compute; reflexivity. Qed.

Lemma single_target_takes_precedence_witness :
  arg_target Demo.both_options = Some "a.test" ∧
  "a.test" ≠ "" ∧
  run_cli (builtins := Demo.builtins) (host := Demo.online) Demo.both_options Demo.start
    = run_cli_recon (builtins := Demo.builtins) (host := Demo.online)
        ["a.test"] (arg_concurrency Demo.both_options) Demo.start ∧
  ∃ evs,
    trace (run_cli (builtins := Demo.builtins) (host := Demo.online)
             Demo.both_options Demo.start).2 = trace Demo.start ++ evs ∧
    ∀ path, EvOpenRead path ∉ evs.
Proof.
  split; [reflexivity|]. split; [discriminate|].
  apply (single_target_takes_precedence (builtins := Demo.builtins) (host := Demo.online)
           Demo.both_options "a.test" Demo.start); [reflexivity|discriminate].
Defined.

(** ** The history of a run *)

Section history.
Context {builtins : Builtins} {W : Type} {host : Host W}.
Implicit Types (st : io_state W) (s : sched) (t : string).

(** The three kinds of steps, with all they change. *)
Lemma step_cases s st s' st' :
  step (s, st) (s', st') →
  (∃ i t dns who,
     tasks s !! i = Some (Pending t) ∧ (0 < sem_value s)%Z ∧
     s' = Sched (sem_value s - 1) (<[i := Running t dns who]> (tasks s))
                (done_queue s) (results s) ∧
     trace st' = trace st ++ probe_events t ∧ waited st' = waited st) ∨
  (∃ i t dns who r,
     tasks s !! i = Some (Running t dns who) ∧ target r = t ∧
     s' = Sched (sem_value s + 1) (<[i := Done]> (tasks s))
                (done_queue s ++ [Ok r]) (results s) ∧
     trace st' = trace st ∧ (waited st' ≤ waited st + 5)%N) ∨
  (∃ r queue,
     done_queue s = Ok r :: queue ∧
     s' = Sched (sem_value s) (tasks s) queue (results s ++ [r]) ∧
     trace st' = trace st ++ [EvPrint (progress_line r)] ∧ waited st' = waited st).
Proof.
  intros (a & Ha & Hexec). apply elem_of_enabled in Ha. simpl in *.
  unfold mbind at 1, io_bind at 1, ask in Hexec.
  destruct (next_ready _ _) as [k w1]. simpl in Hexec.
  destruct a as [i|i|]; simpl in Ha, Hexec.
  - destruct Ha as (t & Hi & Hpos). rewrite Hi in Hexec. left.
    unfold launch, attempt, mbind, io_bind in Hexec.
    rewrite recon_target_begin_eq in Hexec. simpl in Hexec.
    injection Hexec as <- <-. by eexists i, t, _, _.
  - destruct Ha as (t & dns & who & Hi). rewrite Hi in Hexec. right. left.
    unfold finish, suspended, attempt, mbind, io_bind in Hexec.
    rewrite recon_target_resume_eq in Hexec. simpl in Hexec.
    injection Hexec as <- <-. eexists i, t, dns, who, _. simpl.
    split_and!; try done; try reflexivity. simpl.
    match goal with |- context [delay 5 ?rep] => pose proof (delay_le 5 rep) end. lia.
  - right. right. unfold collect in Hexec.
    destruct (done_queue s) as [|[r|e] queue]; [done| |done].
    injection Hexec as <- <-. by exists r, queue.
Qed.


Lemma all_done_tasks (l : list task) :
  sum_list_with is_done l = length l → Forall (λ tk, tk = Done) l.
Proof.
  induction l as [|tk l IH]; simpl; [done|]. intros Hsum.
  pose proof (is_done_le tk). pose proof (sum_list_with_le_length is_done l is_done_le).
  constructor; [destruct tk; simpl in *; done || lia|apply IH; lia].
Qed.

Lemma finished_all_done concurrency targets s :
  invariant concurrency targets s → finished s = true →
  done_queue s = [] ∧ Forall (λ tk, tk = Done) (tasks s).
Proof.
  intros [Hsem Hslots Hblocked Hqueue Hdone Htargets] Hfin.
  unfold finished in Hfin. apply bool_decide_eq_true in Hfin.
  pose proof (sum_list_with_le_length is_done (tasks s) is_done_le) as Hle.
  split; [apply length_zero_iff_nil; lia|]. apply all_done_tasks. lia.
Qed.

Lemma omap_all_done {B} (g : task → option B) (l : list task) :
  g Done = None → Forall (λ tk, tk = Done) l → omap g l = [].
Proof. intros Hg. induction 1 as [|tk l -> _ IH]; simpl; [done|]. by rewrite Hg. Qed.

Lemma holds_slot_all_done (l : list task) :
  Forall (λ tk, tk = Done) l → sum_list_with holds_slot l = 0.
Proof. induction 1 as [|tk l -> _ IH]; simpl; [done|]. done. Qed.

(** What has happened between two states of the loop. *)
Lemma run_history (c0 c : config W) :
  rtc step c0 c →
  ∃ evs order new,
    trace c.2 = trace c0.2 ++ evs ∧
    lookups evs = mjoin (probe_events <$> order) ∧
    printed evs = progress_line <$> new ∧
    results c.1 = results c0.1 ++ new ∧
    waiting c0.1 ≡ₚ order ++ waiting c.1 ∧
    (waited c.2 + 5 * N.of_nat (length (done_queue c0.1) + length (results c0.1))
       ≤ waited c0.2 + 5 * N.of_nat (length (done_queue c.1) + length (results c.1)))%N.
Proof.
  intros Hrtc. revert c Hrtc. apply rtc_ind_r.
  { exists [], [], []. rewrite !(right_id_L [] (++)). split_and!; try done. }
  intros [s st] [s' st'] Hrtc Hstep IH.
  destruct IH as (evs & order & new & Htrace & Hlook & Hprint & Hres & Hwait & Htime).
  simpl in *.
  apply step_cases in Hstep
    as [(i & t & dns & who & Hi & Hpos & -> & Htr & Hw)
       |[(i & t & dns & who & r & Hi & Hr & -> & Htr & Hw)
        |(r & queue & Hq & -> & Htr & Hw)]]; simpl.
  - exists (evs ++ probe_events t), (order ++ [t]), new.
    unfold lookups, printed, waiting in *. simpl.
    rewrite Htr, Htrace, !omap_app, fmap_app, join_app, Hlook, Hprint.
    split; [by rewrite (assoc_L (++))|].
    split; [simpl; by rewrite ?(right_id_L [] (++))|].
    split; [simpl; by rewrite ?(right_id_L [] (++))|].
    split; [done|]. split; [|lia].
    rewrite Hwait, <- (assoc_L (++)). f_equiv. simpl.
    by apply (omap_insert_None _ (tasks s) i _ (Pending t)).
  - exists evs, order, new. unfold waiting in *. simpl.
    rewrite Htr, length_app. simpl.
    split; [done|]. split; [done|]. split; [done|]. split; [done|]. split; [|lia].
    rewrite Hwait. f_equiv.
    by rewrite (omap_insert_same _ (tasks s) i Done (Running t dns who)).
  - exists (evs ++ [EvPrint (progress_line r)]), order, (new ++ [r]).
    unfold lookups, printed in *. rewrite Hq in Htime. simpl in *.
    split_and!.
    + by rewrite Htr, Htrace, (assoc_L (++)).
    + rewrite omap_app, Hlook. simpl. by rewrite (right_id_L [] (++)).
    + by rewrite omap_app, fmap_app, Hprint.
    + by rewrite Hres, (assoc_L (++)).
    + done.
    + rewrite Hw, length_app. simpl. lia.
Qed.

(** A run of [run_recon] with a bound of at least 1, with its last state. *)
Lemma run_recon_last_state targets concurrency st :
  (1 ≤ concurrency)%Z →
  ∃ s' st',
    run_recon targets concurrency st = (Returned (results s'), st') ∧
    rtc step (initial concurrency targets, st) (s', st') ∧
    invariant concurrency targets s' ∧
    done_queue s' = [] ∧ Forall (λ tk, tk = Done) (tasks s').
Proof.
  intros Hc.
  destruct (run_recon_total targets concurrency st Hc) as (s' & st' & Hrun & Hrtc & Hfin).
  assert (invariant concurrency targets s') as Hinv.
  { apply (reachable_invariant concurrency targets (initial concurrency targets, st) (s', st'));
      [|done]. apply invariant_initial. lia. }
  destruct (finished_all_done _ _ _ Hinv Hfin) as [Hq Hdone].
  by exists s', st'.
Qed.

Lemma waiting_initial sem targets : waiting (initial sem targets) = targets.
Proof.
  unfold waiting, initial. simpl.
  induction targets as [|t l IH]; [done|]. rewrite fmap_cons. simpl. f_equal. exact IH.
Qed.

Lemma progress_lines_of_run targets concurrency st :
  (1 ≤ concurrency)%Z →
  ∃ batch st' evs,
    run_recon targets concurrency st = (Returned batch, st') ∧
    trace st' = trace st ++ evs ∧
    printed evs = progress_line <$> batch.
Proof.
  intros Hc.
  destruct (run_recon_last_state targets concurrency st Hc)
    as (s' & st' & Hrun & Hrtc & Hinv & Hq & Hdone).
  destruct (run_history _ _ Hrtc) as (evs & order & new & Htrace & _ & Hprint & Hres & _).
  cbn in *. exists (results s'), st', evs. by rewrite <- Hres in Hprint.
Qed.

(** X1. [run_recon] prints one line per record, and the lines come in the
    order of the batch it returns. *)
Theorem progress_lines_follow_batch targets concurrency st :
  (1 ≤ concurrency)%Z →
  ∃ batch st' evs,
    run_recon targets concurrency st = (Returned batch, st') ∧
    trace st' = trace st ++ evs ∧
    printed evs = progress_line <$> batch.
Proof.
  intros Hc.
  destruct (run_recon_last_state targets concurrency st Hc)
    as (s' & st' & Hrun & Hrtc & Hinv & Hq & Hdone).
  destruct (run_history _ _ Hrtc) as (evs & order & new & Htrace & _ & Hprint & Hres & _).
  cbn in *. exists (results s'), st', evs. by rewrite <- Hres in Hprint.
Qed.

(** X2. No lookup is repeated and none is left out: the events of a run
    other than its printed lines are, target after target in the order in
    which the probes start, the two queries to the resolver, the registry
    lookup and the HTTP request of the target; the targets in this order are
    the given ones, each as often as it was given. *)
Theorem every_target_probed_once targets concurrency st :
  (1 ≤ concurrency)%Z →
  ∃ batch st' evs order,
    run_recon targets concurrency st = (Returned batch, st') ∧
    trace st' = trace st ++ evs ∧
    order ≡ₚ targets ∧
    lookups evs = mjoin (probe_events <$> order).
Proof.
  intros Hc.
  destruct (run_recon_last_state targets concurrency st Hc)
    as (s' & st' & Hrun & Hrtc & Hinv & Hq & Hdone).
  destruct (run_history _ _ Hrtc) as (evs & order & new & Htrace & Hlook & _ & _ & Hwait & _).
  cbn [fst snd] in *. exists (results s'), st', evs, order. split_and!; try done.
  rewrite waiting_initial in Hwait. unfold waiting in Hwait.
  rewrite (omap_all_done _ _ eq_refl Hdone), (right_id_L [] (++)) in Hwait. done.
Qed.


(** X4. When [run_recon] returns, every slot of the semaphore has been given
    back: its counter is the bound again, no probe is in flight, every
    coroutine has ended and every result has been collected. *)
Theorem semaphore_restored targets concurrency st :
  (1 ≤ concurrency)%Z →
  ∃ s' st',
    run_recon targets concurrency st = (Returned (results s'), st') ∧
    rtc step (initial concurrency targets, st) (s', st') ∧
    sem_value s' = concurrency ∧
    running s' = 0 ∧
    done_queue s' = [] ∧
    Forall (λ tk, tk = Done) (tasks s').
Proof.
  intros Hc.
  destruct (run_recon_last_state targets concurrency st Hc)
    as (s' & st' & Hrun & Hrtc & Hinv & Hq & Hdone).
  exists s', st'. pose proof (holds_slot_all_done _ Hdone) as Hrunning.
  pose proof (inv_slots _ _ _ Hinv) as Hslots. unfold running in *.
  split_and!; try done. lia.
Qed.

End history.

(** ** The bounds 1 and 0, and no targets *)

Section bounds.
Context {builtins : Builtins} {W : Type} {host : Host W}.
Implicit Types (st : io_state W) (s : sched) (t : string).

Lemma in_flight_nil s : running s = 0 → in_flight s = [].
Proof.
  unfold running, in_flight. induction (tasks s) as [|tk l IH]; simpl; [done|].
  destruct tk; simpl; intros Hsum; try lia; by apply IH.
Qed.

Lemma omap_insert_fresh {A B} (g : A → option B) (l : list A) i x y b :
  l !! i = Some y → g x = Some b → omap g l = [] → omap g (<[i:=x]> l) = [b].
Proof.
  revert i. induction l as [|z l IH]; intros [|i] Hi Hx Hnil; simplify_eq/=.
  - rewrite Hx. destruct (g y); simplify_eq/=. by rewrite Hnil.
  - destruct (g z); simplify_eq/=. by apply (IH i).
Qed.

(** With the bound 1, the lookups so far are those of the targets that were
    started, in the order collected, completed, in flight. *)
Lemma serial_history targets st (c : config W) :
  rtc step (initial 1 targets, st) c →
  ∃ evs, trace c.2 = trace st ++ evs ∧
         lookups evs = mjoin (probe_events <$> started c.1).
Proof.
  intros Hrtc. revert c Hrtc. apply rtc_ind_r.
  { exists []. cbn [fst snd]. rewrite (right_id_L [] (++)). split; [done|].
    unfold started. cbn [initial results done_queue fmap list_fmap omap list_omap app].
    rewrite in_flight_nil; [done|]. unfold running. cbn [initial tasks].
    induction targets as [|t l IH]; [done|]. rewrite fmap_cons. exact IH. }
  intros [s st1] [s' st2] Hrtc Hstep (evs & Htrace & Hlook). cbn [fst snd] in *.
  pose proof (reachable_invariant 1 targets (initial 1 targets, st) (s, st1)
                (invariant_initial 1 targets ltac:(lia)) Hrtc) as Hinv.
  cbn [fst snd] in Hinv.
  pose proof (inv_sem _ _ _ Hinv) as Hsem. pose proof (inv_slots _ _ _ Hinv) as Hslots.
  unfold started in *.
  apply step_cases in Hstep
    as [(i & t & dns & who & Hi & Hpos & -> & Htr & Hw)
       |[(i & t & dns & who & r & Hi & Hr & -> & Htr & Hw)
        |(r & queue & Hq & -> & Htr & Hw)]]; cbn [results done_queue].
  - exists (evs ++ probe_events t). split; [by rewrite Htr, Htrace, (assoc_L (++))|].
    rewrite (in_flight_nil s) in Hlook by lia.
    assert (in_flight (Sched (sem_value s - 1) (<[i:=Running t dns who]> (tasks s))
                         (done_queue s) (results s)) = [t]) as ->.
    { unfold in_flight. cbn [tasks].
      apply (omap_insert_fresh _ _ _ _ (Pending t)); [done..|].
      apply (in_flight_nil s). lia. }
    unfold lookups in *. rewrite omap_app, Hlook.
    rewrite !(right_id_L [] (++)), !(assoc_L (++)), !fmap_app, !join_app. simpl.
    by rewrite ?(right_id_L [] (++)).
  - exists evs. split; [by rewrite Htr|]. rewrite Hlook.
    pose proof (sum_list_with_insert holds_slot _ _ Done _ Hi) as Hsum. simpl in Hsum.
    unfold running in Hslots.
    assert (in_flight (Sched (sem_value s + 1) (<[i:=Done]> (tasks s))
                         (done_queue s ++ [Ok r]) (results s)) = []) as Hafter.
    { apply in_flight_nil. unfold running. cbn [tasks]. lia. }
    assert (in_flight s = [t]) as ->.
    { apply Permutation_singleton_r. unfold in_flight in *. cbn [tasks] in Hafter.
      rewrite (omap_insert_None _ (tasks s) i Done _ t Hi) by done. by rewrite Hafter. }
    rewrite Hafter, omap_app. simpl. rewrite Hr.
    by rewrite !(right_id_L [] (++)), !(assoc_L (++)).
  - exists (evs ++ [EvPrint (progress_line r)]).
    split; [by rewrite Htr, Htrace, (assoc_L (++))|].
    unfold lookups in *. rewrite omap_app, Hlook. cbn [omap list_omap].
    rewrite (right_id_L [] (++)). apply (f_equal (λ l, mjoin (probe_events <$> l))).
    rewrite Hq, fmap_app. unfold in_flight. cbn [tasks omap list_omap queued_target].
    by rewrite <- (assoc_L (++)).
Qed.

(** X5. With the bound 1 the probes run one after the other, in the order
    of the batch: the events of the run other than its printed lines are, for
    each record of the batch in turn, the lookups of its target. *)
Theorem bound_one_probes_in_batch_order targets st :
  ∃ batch st' evs,
    run_recon targets 1 st = (Returned batch, st') ∧
    trace st' = trace st ++ evs ∧
    lookups evs = mjoin (probe_events <$> (target <$> batch)).
Proof.
  destruct (run_recon_last_state targets 1 st ltac:(lia))
    as (s' & st' & Hrun & Hrtc & Hinv & Hq & Hdone).
  destruct (serial_history _ _ _ Hrtc) as (evs & Htrace & Hlook).
  exists (results s'), st', evs. cbn [fst snd] in *. split_and!; try done.
  rewrite Hlook. unfold started, in_flight.
  rewrite Hq, (omap_all_done _ _ eq_refl Hdone). simpl.
  by rewrite (right_id_L [] (++)).
Qed.

Lemma enabled_initial_zero targets : enabled (initial 0 targets) = [].
Proof.
  destruct (enabled (initial 0 targets)) as [|a acts] eqn:Hen; [done|].
  assert (a ∈ enabled (initial 0 targets)) as Ha by (rewrite Hen; apply elem_of_cons; by left).
  apply elem_of_enabled in Ha. destruct a as [i|i|]; simpl in Ha.
  - destruct Ha as (t & _ & ?). lia.
  - destruct Ha as (t & dns & who & Hi).
    apply list_lookup_fmap_Some in Hi as (? & ? & ?). done.
  - done.
Qed.

(** X6. With the bound 0 and at least one target [run_recon] never returns:
    no coroutine gets past the semaphore, the loop has nothing it can do,
    and no lookup is made. *)
Theorem bound_zero_never_returns targets st :
  targets ≠ [] →
  run_recon targets 0 st = (Hangs, st) ∧
  ∀ c', ¬ step (initial 0 targets, st) c'.
Proof.
  intros Hne. split.
  - unfold run_recon, Semaphore. cbn [Z.ltb Z.compare].
    unfold mbind, io_bind, mret, io_ret. cbn beta iota.
    assert (finished (initial 0 targets) = false) as Hfin.
    { unfold finished. apply bool_decide_eq_false. simpl. rewrite length_fmap.
      destruct targets; simpl; [done|lia]. }
    destruct (3 * length targets) as [|fuel]; cbn [event_loop];
      by rewrite Hfin, enabled_initial_zero.
  - intros c' (a & Ha & _). cbn [fst] in Ha. rewrite enabled_initial_zero in Ha.
    by apply elem_of_nil in Ha.
Qed.

(** X7. Without targets [run_recon] returns the empty batch at once, for
    every bound from 0 on: nothing is looked up and nothing is printed. *)
Theorem no_targets_empty_batch concurrency st :
  (0 ≤ concurrency)%Z →
  run_recon [] concurrency st = (Returned [], st).
Proof.
  intros Hc. unfold run_recon, Semaphore.
  destruct (Z.ltb_spec concurrency 0); [lia|]. reflexivity.
Qed.

End bounds.

(** ** The lines of a list file *)

Section lines.
Implicit Types (s u v : string) (c : Ascii.ascii).














End lines.

(** ** The command line, from the targets to the report *)

Section cli.
Context {builtins : Builtins} {W : Type} {host : Host W}.
Implicit Types (st : io_state W) (args : Namespace).

Lemma read_targets_lines path st :
  let r := read_lines path (world st) in
  let st' := IoState r.2 (trace st ++ [EvOpenRead path]) (waited st) in
  read_targets path st =
    match r.1 with
    | Err e => (Raised e, st')
    | Ok lines =>
        (Returned (strip <$> filter (λ line, str_truthy (strip line) = true) lines), st')
    end.
Proof.
  intros r st'. unfold read_targets, emit, ask, lift, mbind, io_bind, mret, io_ret, raise.
  simpl. subst st' r. by destruct (read_lines path (world st)) as [[lines|e] w].
Qed.


(** X9. Without a target that is not empty and without a list file,
    [run_cli] prints how it is to be called and returns; the bound is not
    looked at, nothing is looked up and no report is written. *)
Theorem no_source_prints_usage args st :
  given (arg_target args) = None → given (arg_list args) = None →
  run_cli args st =
    (Returned (),
     IoState (world st) (trace st ++ [EvPrint "Please provide -t <target> or -l <file>"])
             (waited st)).
Proof. intros Ht Hl. unfold run_cli. by rewrite Ht, Hl. Qed.

(** X10. When the list file cannot be read, [run_cli] ends with the error
    of [open]: the first line of the run is not printed, nothing is looked
    up and no report is written. *)
Theorem unreadable_list_file_raises args path e w st :
  given (arg_target args) = None → given (arg_list args) = Some path →
  read_lines path (world st) = (Err e, w) →
  run_cli args st = (Raised e, IoState w (trace st ++ [EvOpenRead path]) (waited st)).
Proof.
  intros Ht Hl Hread. unfold run_cli. rewrite Ht, Hl.
  apply bind_raised. pose proof (read_targets_lines path st) as Hlines.
  rewrite Hread in Hlines. exact Hlines.
Qed.

Lemma run_recon_batch targets concurrency st :
  (1 ≤ concurrency)%Z →
  ∃ batch st' evs,
    run_recon targets concurrency st = (Returned batch, st') ∧
    target <$> batch ≡ₚ targets ∧
    trace st' = trace st ++ evs ∧ Forall (λ ev, ¬ writes_report ev) evs.
Proof.
  intros Hc.
  destruct (run_recon_total targets concurrency st Hc) as (s' & st' & Hrun & Hrtc & Hfin).
  destruct (emits_only_run_recon (λ ev, ¬ writes_report ev) targets concurrency)
    with (st := st) as (evs & Hevs & HP); try (simpl; tauto).
  rewrite Hrun in Hevs. exists (results s'), st', evs. split_and!; try done.
  apply (finished_batch concurrency); [|done].
  apply (reachable_invariant concurrency targets (initial concurrency targets, st) (s', st'));
    [|done].
  apply invariant_initial. lia.
Qed.

Lemma report_reads_back (batch : list ReconResult) :
  reads_back json_converter recursion_limit
    (PyList (asdict <$> batch)) (PyList (loaded <$> batch)).
Proof.
  rewrite (list_fmap_ext loaded (λ r, id (loaded r)) batch) by done.
  rewrite (list_fmap_compose loaded id), list_fmap_id.
  assert (loaded <$> batch
          = (λ o, match o with
                  | PyDict d =>
                      PyDict ((λ o, match o with
                                    | PyDatetime ts => PyStr (isoformat ts)
                                    | _ => o
                                    end) <$> d)
                  | _ => o
                  end) <$> (asdict <$> batch)) as ->.
  { rewrite <- list_fmap_compose. apply list_fmap_ext. intros _ r _.
    unfold loaded, asdict. simpl. by rewrite !fmap_insert, fmap_empty. }
  apply (reads_back_list json_converter (4 + 995)).
  intros o (r & -> & _)%list_elem_of_fmap.
  destruct (reads_back_record 995 r) as (doc & Hdoc & Hback).
  exists doc. split; [done|]. rewrite Hback. unfold loaded, asdict.
  by rewrite !fmap_insert, fmap_empty.
Qed.

(** X11. With a bound of at least 1 and a report file that can be written,
    [run_cli] goes through once it has its targets: it prints its first
    line, runs the probes, writes one document and prints its last line.
    The document reads back as one record per given target, and the report
    file is touched only after the last probe. *)
Theorem report_holds_every_target targets concurrency st :
  (1 ≤ concurrency)%Z →
  (∀ w, (open_write report_path w).1 = Ok ()) →
  ∃ batch doc evs st',
    run_cli_recon targets concurrency st = (Returned (), st') ∧
    target <$> batch ≡ₚ targets ∧
    json_decode doc = PyList (loaded <$> batch) ∧
    trace st' =
      trace st
      ++ [EvPrint ("[INFO] Starting SpecterScope recon for " +:+ pretty (length targets)
                   +:+ " target(s) with concurrency=" +:+ pretty concurrency)]
      ++ evs
      ++ [EvOpenWrite report_path; EvDump report_path doc;
          EvPrint "[INFO] Recon complete. Results saved to specterscope_report.json"] ∧
    Forall (λ ev, ¬ writes_report ev) evs.
Proof.
  intros Hc Hopen. unfold run_cli_recon.
  erewrite bind_returned by reflexivity.
  match goal with |- context [mbind _ (run_recon targets concurrency) ?st0] =>
    destruct (run_recon_batch targets concurrency st0 Hc)
      as (batch & st1 & evs & Hrun & Hperm & Htrace & Hevs) end.
  erewrite bind_returned by exact Hrun.
  destruct (report_reads_back batch) as (doc & Hdoc & Hback).
  exists batch, doc, evs. unfold dump_report. rewrite Hdoc.
  unfold print, emit, ask, lift, mbind, io_bind, mret, io_ret.
  cbn [world trace waited].
  specialize (Hopen (world st1)).
  destruct (open_write report_path (world st1)) as [[[]|e] w2];
    cbn [fst snd] in Hopen; [|done].
  cbn [world trace waited]. eexists. split; [done|]. split_and!; try done.
  cbn [trace]. rewrite Htrace. cbn [trace]. by rewrite <- !(assoc_L (++)).
Qed.

(** X12. When the report file cannot be opened for writing, [run_cli] ends
    with the error of [open], and only after every probe has run: the
    targets were looked up, nothing is written and the last line is not
    printed. *)
Theorem unwritable_report_raises targets concurrency e st :
  (1 ≤ concurrency)%Z →
  (∀ w, (open_write report_path w).1 = Err e) →
  ∃ evs st',
    run_cli_recon targets concurrency st = (Raised e, st') ∧
    trace st' =
      trace st
      ++ [EvPrint ("[INFO] Starting SpecterScope recon for " +:+ pretty (length targets)
                   +:+ " target(s) with concurrency=" +:+ pretty concurrency)]
      ++ evs ++ [EvOpenWrite report_path] ∧
    Forall (λ ev, ¬ writes_report ev) evs ∧
    length (printed evs) = length targets.
Proof.
  intros Hc Hopen. unfold run_cli_recon.
  erewrite bind_returned by reflexivity.
  match goal with |- context [mbind _ (run_recon targets concurrency) ?st0] =>
    destruct (run_recon_batch targets concurrency st0 Hc)
      as (batch & st1 & evs & Hrun & Hperm & Htrace & Hevs);
    destruct (progress_lines_of_run targets concurrency st0 Hc)
      as (batch' & st1' & evs' & Hrun' & Htrace' & Hprinted) end.
  rewrite Hrun in Hrun'. injection Hrun' as <- <-.
  rewrite Htrace in Htrace'. apply (inj (app _)) in Htrace' as <-.
  erewrite bind_returned by exact Hrun.
  exists evs. unfold dump_report.
  unfold print, emit, ask, lift, mbind, io_bind, mret, io_ret, raise.
  cbn [world trace waited].
  specialize (Hopen (world st1)).
  destruct (open_write report_path (world st1)) as [[[]|e'] w2];
    cbn [fst snd] in Hopen; [done|].
  injection Hopen as ->. cbn [world trace waited].
  eexists. split; [done|]. split_and!; try done.
  - cbn [trace]. rewrite Htrace. cbn [trace]. by rewrite <- !(assoc_L (++)).
  - rewrite Hprinted, length_fmap. apply Permutation_length in Hperm.
    by rewrite length_fmap in Hperm.
Qed.

End cli.

(** ** What [run_recon] never does *)

Section never.
Context {builtins : Builtins} {W : Type} {host : Host W}.

(** X13. However it ends (with a batch, with an error or not at all),
    [run_recon] opens no file, neither for reading nor for writing: all it
    causes are lookups and printed lines. *)
Theorem run_recon_touches_no_file targets concurrency (st : io_state W) :
  ∃ evs,
    trace (run_recon targets concurrency st).2 = trace st ++ evs ∧
    Forall (λ ev, ¬ opens_for_reading ev ∧ ¬ writes_report ev) evs.
Proof.
  apply (emits_only_run_recon (λ ev, ¬ opens_for_reading ev ∧ ¬ writes_report ev));
    simpl; tauto.
Qed.

End never.

(** ** More concrete runs *)

Lemma progress_lines_follow_batch_witness :
  (1 ≤ 2)%Z ∧
  ∃ batch st' evs,
    run_recon (builtins := Demo.builtins) (host := Demo.online)
      ["a.test"; "b.test"; "a.test"] 2 Demo.start = (Returned batch, st') ∧
    trace st' = trace Demo.start ++ evs ∧
    printed evs = progress_line <$> batch.
Proof.
  split; [lia|].
  apply (progress_lines_follow_batch (builtins := Demo.builtins) (host := Demo.online)
           ["a.test"; "b.test"; "a.test"] 2 Demo.start).
  lia.
Defined.

Lemma every_target_probed_once_witness :
  (1 ≤ 2)%Z ∧
  ∃ batch st' evs order,
    run_recon (builtins := Demo.builtins) (host := Demo.offline)
      ["a.test"; "b.test"; "a.test"] 2 Demo.start = (Returned batch, st') ∧
    trace st' = trace Demo.start ++ evs ∧
    order ≡ₚ ["a.test"; "b.test"; "a.test"] ∧
    lookups evs = mjoin (probe_events <$> order).
Proof.
  split; [lia|].
  apply (every_target_probed_once (builtins := Demo.builtins) (host := Demo.offline)
           ["a.test"; "b.test"; "a.test"] 2 Demo.start).
  lia.
Defined.


Lemma semaphore_restored_witness :
  (1 ≤ 2)%Z ∧
  ∃ s' st',
    run_recon (builtins := Demo.builtins) (host := Demo.online)
      ["a.test"; "b.test"; "a.test"] 2 Demo.start = (Returned (results s'), st') ∧
    rtc (step (builtins := Demo.builtins) (host := Demo.online))
      (initial 2 ["a.test"; "b.test"; "a.test"], Demo.start) (s', st') ∧
    sem_value s' = 2%Z ∧
    running s' = 0 ∧
    done_queue s' = [] ∧
    Forall (λ tk, tk = Done) (tasks s').
Proof.
  split; [lia|].
  apply (semaphore_restored (builtins := Demo.builtins) (host := Demo.online)
           ["a.test"; "b.test"; "a.test"] 2 Demo.start).
  lia.
Defined.

Lemma bound_zero_never_returns_witness :
  ["a.test"; "b.test"] ≠ [] ∧
  run_recon (builtins := Demo.builtins) (host := Demo.online)
    ["a.test"; "b.test"] 0 Demo.start = (Hangs, Demo.start) ∧
  ∀ c', ¬ step (builtins := Demo.builtins) (host := Demo.online)
            (initial 0 ["a.test"; "b.test"], Demo.start) c'.
Proof.
  split; [discriminate|].
  apply (bound_zero_never_returns (builtins := Demo.builtins) (host := Demo.online)
           ["a.test"; "b.test"] Demo.start).
  discriminate.
Defined.

Lemma no_targets_empty_batch_witness :
  (0 ≤ 0)%Z ∧
  run_recon (builtins := Demo.builtins) (host := Demo.online) [] 0 Demo.start
    = (Returned [], Demo.start).
Proof.
  split; [lia|].
  apply (no_targets_empty_batch (builtins := Demo.builtins) (host := Demo.online)
           0 Demo.start).
  lia.
Defined.

Lemma no_source_prints_usage_witness :
  given (arg_target Demo.no_source) = None ∧
  given (arg_list Demo.no_source) = None ∧
  run_cli (builtins := Demo.builtins) (host := Demo.online) Demo.no_source Demo.start =
    (Returned (),
     IoState (world Demo.start)
       (trace Demo.start ++ [EvPrint "Please provide -t <target> or -l <file>"])
       (waited Demo.start)).
Proof.
  split; [reflexivity|]. split; [reflexivity|].
  apply (no_source_prints_usage (builtins := Demo.builtins) (host := Demo.online)
           Demo.no_source Demo.start); reflexivity.
Defined.

Lemma unreadable_list_file_raises_witness :
  given (arg_target Demo.missing_file) = None ∧
  given (arg_list Demo.missing_file) = Some "nofile.txt" ∧
  @read_lines nat Demo.online "nofile.txt" (world Demo.start)
    = (Err (OSError "No such file or directory"), 1) ∧
  run_cli (builtins := Demo.builtins) (host := Demo.online) Demo.missing_file Demo.start =
    (Raised (OSError "No such file or directory"),
     IoState 1 (trace Demo.start ++ [EvOpenRead "nofile.txt"]) (waited Demo.start)).
Proof.
  split; [reflexivity|]. split; [reflexivity|]. split; [reflexivity|].
  apply (unreadable_list_file_raises (builtins := Demo.builtins) (host := Demo.online)
           Demo.missing_file "nofile.txt" (OSError "No such file or directory") 1
           Demo.start); reflexivity.
Defined.

Lemma report_holds_every_target_witness :
  (1 ≤ 5)%Z ∧
  (∀ w, (@open_write nat Demo.online report_path w).1 = Ok ()) ∧
  ∃ batch doc evs st',
    run_cli_recon (builtins := Demo.builtins) (host := Demo.online)
      ["a.test"; "b.test"] 5 Demo.start = (Returned (), st') ∧
    target <$> batch ≡ₚ ["a.test"; "b.test"] ∧
    json_decode doc = PyList (loaded <$> batch) ∧
    trace st' =
      trace Demo.start
      ++ [EvPrint ("[INFO] Starting SpecterScope recon for "
                   +:+ pretty (length ["a.test"; "b.test"])
                   +:+ " target(s) with concurrency=" +:+ pretty 5%Z)]
      ++ evs
      ++ [EvOpenWrite report_path; EvDump report_path doc;
          EvPrint "[INFO] Recon complete. Results saved to specterscope_report.json"] ∧
    Forall (λ ev, ¬ writes_report ev) evs.
Proof.
  split; [lia|]. split; [intros w; reflexivity|].
  apply (report_holds_every_target (builtins := Demo.builtins) (host := Demo.online)
           ["a.test"; "b.test"] 5 Demo.start); [lia|intros w; reflexivity].
Defined.

Lemma unwritable_report_raises_witness :
  (1 ≤ 5)%Z ∧
  (∀ w, (@open_write nat Demo.read_only report_path w).1
        = Err (OSError "Permission denied")) ∧
  ∃ evs st',
    run_cli_recon (builtins := Demo.builtins) (host := Demo.read_only)
      ["a.test"; "b.test"] 5 Demo.start = (Raised (OSError "Permission denied"), st') ∧
    trace st' =
      trace Demo.start
      ++ [EvPrint ("[INFO] Starting SpecterScope recon for "
                   +:+ pretty (length ["a.test"; "b.test"])
                   +:+ " target(s) with concurrency=" +:+ pretty 5%Z)]
      ++ evs ++ [EvOpenWrite report_path] ∧
    Forall (λ ev, ¬ writes_report ev) evs ∧
    length (printed evs) = length ["a.test"; "b.test"].
Proof.
  split; [lia|]. split; [intros w; reflexivity|].
  apply (unwritable_report_raises (builtins := Demo.builtins) (host := Demo.read_only)
           ["a.test"; "b.test"] 5 (OSError "Permission denied") Demo.start);
    [lia|intros w; reflexivity].
Defined.

(** ** The converter *)

Section converter.
Context {builtins : Builtins}.


End converter.


(** ** No resumption order blocks the loop *)

Section progress.
Context {builtins : Builtins} {W : Type} {host : Host W}.

Lemma turns_left_reachable concurrency targets (c0 c : config W) :
  invariant concurrency targets c0.1 → rtc step c0 c →
  turns_left c.1 ≤ turns_left c0.1.
Proof.
  intros Hinv Hrtc. induction Hrtc as [|c1 c2 c3 Hstep _ IH]; [done|].
  destruct (step_preserves concurrency targets c1 c2 Hinv Hstep) as [Hinv2 Hlt].
  specialize (IH Hinv2). lia.
Qed.

(** X15. With a bound of at least 1, in whatever order the coroutines are
    resumed, the loop is never stuck before it has collected every result,
    and it cannot go on for ever: each step uses up one of the three turns a
    target has. *)
Theorem loop_never_stuck targets concurrency (st : io_state W) s st' :
  (1 ≤ concurrency)%Z →
  rtc step (initial concurrency targets, st) (s, st') →
  turns_left s ≤ 3 * length targets ∧
  (finished s = false → ∃ c', step (s, st') c') ∧
  ∀ c', step (s, st') c' → turns_left c'.1 < turns_left s.
Proof.
  intros Hc Hrtc.
  assert (invariant concurrency targets s) as Hinv.
  { apply (reachable_invariant concurrency targets (initial concurrency targets, st) (s, st'));
      [|done]. apply invariant_initial. lia. }
  split_and!.
  - rewrite <- (turns_left_initial concurrency targets).
    apply (turns_left_reachable concurrency targets
             (initial concurrency targets, st) (s, st')); [|done].
    apply invariant_initial. lia.
  - intros Hfin. destruct (enabled_progress _ _ _ Hinv Hc Hfin) as [a Ha].
    destruct (next_ready (length (enabled s)) (world st')) as [k w1] eqn:Hready.
    destruct (exec_preserves concurrency targets a s
                (IoState w1 (trace st') (waited st')) Hinv Ha)
      as (s2 & st2 & Hexec & _ & _).
    exists (s2, st2), a. split; [done|]. cbn [fst snd].
    unfold mbind, io_bind, ask. rewrite Hready. done.
  - intros c' Hstep. by apply (step_preserves concurrency targets (s, st') c' Hinv).
Qed.

End progress.

Lemma loop_never_stuck_witness :
  (1 ≤ 1)%Z ∧
  rtc (step (builtins := Demo.builtins) (host := Demo.online))
    (initial 1 ["a.test"; "b.test"], Demo.start)
    (initial 1 ["a.test"; "b.test"], Demo.start) ∧
  turns_left (initial 1 ["a.test"; "b.test"]) ≤ 3 * length ["a.test"; "b.test"] ∧
  (finished (initial 1 ["a.test"; "b.test"]) = false →
   ∃ c', step (builtins := Demo.builtins) (host := Demo.online)
           (initial 1 ["a.test"; "b.test"], Demo.start) c') ∧
  ∀ c', step (builtins := Demo.builtins) (host := Demo.online)
          (initial 1 ["a.test"; "b.test"], Demo.start) c' →
        turns_left c'.1 < turns_left (initial 1 ["a.test"; "b.test"]).
Proof.
  split; [lia|]. split; [apply rtc_refl|].
  apply (loop_never_stuck (builtins := Demo.builtins) (host := Demo.online)
           ["a.test"; "b.test"] 1 Demo.start
           (initial 1 ["a.test"; "b.test"]) Demo.start); [lia|apply rtc_refl].
Defined.
